(** * Cloudflare R2 bucket cleanup: a shallow embedding of [delete.py]

    The script lists a bucket page by page, optionally keeps the image
    files, shows a preview, asks for a typed confirmation and deletes
    the objects in batches of 1000.

    The S3 client, the console and the clock are the outside world.
    They are an interface here ([S3Client], [Console]), a method is a
    function from the world to an [Outcome], and every call to the
    outside is recorded as an [Event], so that statements such as "no
    delete request is issued" are statements about the events of a run.
    The [while True] loop of the listing runs on a budget of requests;
    a run that exhausts it keeps its events.

    The file has the model first (built-ins, data, the methods of
    [R2BucketCleaner], the words the properties are stated in, a
    scripted world for sample runs) and the properties after it. *)

From Stdlib Require Import ZArith Lia Ascii.
From stdpp Require Import base option list strings gmap pretty.

(** ** Python built-ins used by the script *)

Module Py.

(** A [str] is modelled by a [string] whose characters are the code
    points below 256; [str.isspace] and [str.lower] are given on that
    range (white space: 9-13, 28-32, 133, 160; upper case: A-Z and
    the Latin-1 capitals 192-222 except the multiplication sign). *)

Definition isspace (c : ascii) : bool :=
  let n := nat_of_ascii c in
  ((9 <=? n) && (n <=? 13)) || ((28 <=? n) && (n <=? 32))
  || (n =? 133) || (n =? 160).

Definition isupper (c : ascii) : bool :=
  let n := nat_of_ascii c in
  ((65 <=? n) && (n <=? 90))
  || ((192 <=? n) && (n <=? 222) && negb (n =? 215)).

Definition lower_char (c : ascii) : ascii :=
  if isupper c then ascii_of_nat (nat_of_ascii c + 32) else c.

(** [s.lower()] *)
Fixpoint lower (s : string) : string :=
  match s with
  | EmptyString => EmptyString
  | String c s' => String (lower_char c) (lower s')
  end.

(** [len(s)] *)
Fixpoint len (s : string) : nat :=
  match s with
  | EmptyString => 0
  | String _ s' => S (len s')
  end.

(** [s[n:]] for [0 <= n] *)
Fixpoint from (n : nat) (s : string) : string :=
  match n, s with
  | 0, _ => s
  | S _, EmptyString => EmptyString
  | S n', String _ s' => from n' s'
  end.

(** [s.endswith(suffix)] *)
Definition endswith (s suffix : string) : bool :=
  (len suffix <=? len s) && bool_decide (from (len s - len suffix) s = suffix).

(** [s.lstrip()], [s.rstrip()] and [s.strip()] *)
Fixpoint lstrip (s : string) : string :=
  match s with
  | EmptyString => EmptyString
  | String c s' => if isspace c then lstrip s' else s
  end.

Fixpoint rstrip (s : string) : string :=
  match s with
  | EmptyString => EmptyString
  | String c s' =>
      match rstrip s' with
      | EmptyString => if isspace c then EmptyString else String c EmptyString
      | r => String c r
      end
  end.

Definition strip (s : string) : string := rstrip (lstrip s).

(** Truth value of [x] where [x] is [None] or a [str]: only a
    non-empty string is true. *)
Definition truthy (x : option string) : bool :=
  match x with
  | Some s => negb (bool_decide (s = EmptyString))
  | None => false
  end.

(** [range(start, stop, step)] for [step >= 1].  The recursion is on a
    budget of [stop - start] elements, which a range with a positive
    step never exceeds. *)
Fixpoint range_from (budget i stop step : nat) : list nat :=
  match budget with
  | 0 => []
  | S budget' =>
      if i <? stop then i :: range_from budget' (i + step) stop step else []
  end.

Definition range (start stop step : nat) : list nat :=
  range_from (stop - start) start stop step.

(** [l[i:j]] for [0 <= i] and [0 <= j]: indices beyond the end are
    clipped, and [j <= i] gives the empty list. *)
Definition slice {A} (l : list A) (i j : nat) : list A :=
  take (j - i) (drop i l).

(** [enumerate(l)] *)
Definition enumerate {A} (l : list A) : list (nat * A) :=
  zip (seq 0 (length l)) l.

(** [s.startswith(prefix)] *)
Fixpoint startswith (s prefix : string) {struct prefix} : bool :=
  match prefix, s with
  | EmptyString, _ => true
  | String _ _, EmptyString => false
  | String p prefix', String c s' => bool_decide (c = p) && startswith s' prefix'
  end.

End Py.

(** ** Data exchanged with the object store *)

(** An entry of [response['Contents']]: the script reads ['Key'] and
    ['Size'] only. *)
Record Obj := { Key : string; Size : Z }.

(** The keyword arguments of [list_objects_v2]. *)
Record ListParams := {
  Bucket : string;
  MaxKeys : nat;
  ContinuationToken : option string
}.

(** The fields of a listing response that the script looks at; a field
    is [None] when the key is absent from the response. *)
Record ListResponse := {
  Contents : option (list Obj);
  IsTruncated : option bool;
  NextContinuationToken : option string
}.

(** The arguments of [delete_objects]: [Bucket] and
    [Delete={'Objects': [{'Key': k}, ...], 'Quiet': q}]. *)
Record DeleteRequest := {
  DelBucket : string;
  Objects : list string;
  Quiet : bool
}.

(** An entry of [response['Errors']]. *)
Record DeleteError := { ErrKey : string; Message : string }.

Record DeleteResponse := {
  Deleted : option (list string);
  Errors : option (list DeleteError)
}.

(** [botocore.exceptions.ClientError], the one exception the class
    catches; it carries its text. *)
Inductive ClientError := client_error (text : string).

(** The lines the script prints, one constructor per [print] call, with
    the values interpolated in the text.  [MsgPreview] holds the size in
    bytes; the script prints it in megabytes with two decimals. *)
Inductive Msg :=
| MsgListing (bucket : string)
| MsgFoundInBatch (n : nat)
| MsgErrorListing (e : ClientError)
| MsgTotalFound (n : nat)
| MsgSomeDeletionsFailed
| MsgKeyFailed (key message : string)
| MsgSuccessfullyDeleted (n : nat)
| MsgErrorDeletingBatch (e : ClientError)
| MsgImagesFound (images total : nat)
| MsgStarting (bucket : string)
| MsgMode (images_only : bool)
| MsgDryRunFlag (dry_run : bool)
| MsgRule
| MsgBucketEmpty
| MsgNoMatching
| MsgObjectsToDelete (n : nat)
| MsgPreview (index : nat) (key : string) (size : Z)
| MsgAndMore (n : nat)
| MsgDryRun
| MsgWarning (n : nat)
| MsgCancelled
| MsgStartingDeletion
| MsgProcessingBatch (number size : nat)
| MsgFailedBatch (number : nat)
| MsgCompleted (total_deleted : nat).

(** What the script does to the outside world, in order. *)
Inductive Event :=
| EvPrint (m : Msg)
| EvList (params : ListParams) (result : ClientError + ListResponse)
| EvDelete (request : DeleteRequest) (result : ClientError + DeleteResponse)
| EvInput (prompt answer : string)
| EvSleep.

(** ** The outside world *)

(** [self.s3_client]: each call answers with a response or raises
    [ClientError], and may change the world. *)
Class S3Client (W : Type) := {
  list_objects_v2 : ListParams → W → (ClientError + ListResponse) * W;
  delete_objects : DeleteRequest → W → (ClientError + DeleteResponse) * W
}.

(** [input(prompt)]: the line the operator types. *)
Class Console (W : Type) := {
  input : string → W → string * W
}.

(** ** Running the script: world, events and step budget *)

(** What a run leaves behind: its result, the world it reached and the
    events it caused, oldest first.  The result is [None] when the step
    budget of the listing loop ran out; the world and the events up to
    that point are kept in that case too. *)
Record Outcome (W A : Type) := mkOutcome {
  result : option A;
  world : W;
  events : list Event
}.
Arguments mkOutcome {W A} _ _ _.
Arguments result {W A} _.
Arguments world {W A} _.
Arguments events {W A} _.

Definition M (W A : Type) : Type := W → Outcome W A.

Global Instance M_ret {W} : MRet (M W) := λ A a w, mkOutcome (Some a) w [].

Global Instance M_bind {W} : MBind (M W) := λ A B f m w,
  let o := m w in
  match result o with
  | Some a =>
      let o' := f a (world o) in
      mkOutcome (result o') (world o') (events o ++ events o')
  | None => mkOutcome None (world o) (events o)
  end.

Definition out_of_budget {W A} : M W A := λ w, mkOutcome None w [].

Fixpoint for_each {W A} (l : list A) (body : A → M W unit) : M W unit :=
  match l with
  | [] => mret ()
  | x :: l' => body x ;; for_each l' body
  end.

Fixpoint for_fold {W A S} (l : list A) (body : A → S → M W S) (s : S) : M W S :=
  match l with
  | [] => mret s
  | x :: l' => s' ← body x s; for_fold l' body s'
  end.

Section Primitives.
Context {W : Type} `{!S3Client W, !Console W}.

Definition print (m : Msg) : M W unit :=
  λ w, mkOutcome (Some ()) w [EvPrint m].

(** [time.sleep(0.5)] *)
Definition sleep : M W unit :=
  λ w, mkOutcome (Some ()) w [EvSleep].

Definition call_list_objects_v2 (params : ListParams)
  : M W (ClientError + ListResponse) :=
  λ w, let '(r, w') := list_objects_v2 params w in
       mkOutcome (Some r) w' [EvList params r].

Definition call_delete_objects (request : DeleteRequest)
  : M W (ClientError + DeleteResponse) :=
  λ w, let '(r, w') := delete_objects request w in
       mkOutcome (Some r) w' [EvDelete request r].

Definition call_input (prompt : string) : M W string :=
  λ w, let '(answer, w') := input prompt w in
       mkOutcome (Some answer) w' [EvInput prompt answer].
End Primitives.

(** ** The class [R2BucketCleaner] *)

Record R2BucketCleaner := { bucket_name : string; account_id : string }.

Definition image_extensions : list string :=
  [".jpg"; ".jpeg"; ".png"; ".gif"; ".bmp"; ".tiff"; ".tif";
   ".webp"; ".svg"; ".ico"; ".avif"; ".heic"; ".heif"].

(** The test of [filter_images]:
    [any(key_lower.endswith(ext) for ext in image_extensions)]. *)
Definition is_image_key (key : string) : bool :=
  let key_lower := Py.lower key in
  existsb (λ ext, Py.endswith key_lower ext) image_extensions.

(** The loop of [filter_images]: [image_objects] starts empty and every
    object passing the test is appended to it. *)
Definition image_objects_of (objects : list Obj) : list Obj :=
  fold_left
    (λ image_objects obj,
       if is_image_key (Key obj) then image_objects ++ [obj] else image_objects)
    objects [].

(** The text of the confirmation prompt. *)
Definition confirmation_prompt : string := "Type 'DELETE' to confirm: ".

Definition batch_size : nat := 1000.
Arguments batch_size : simpl never.

Section Cleaner.
Context {W : Type} `{!S3Client W, !Console W}.
Variable self : R2BucketCleaner.

(** The parameters of one listing request: the token is passed only
    when [if continuation_token:] holds. *)
Definition list_params (continuation_token : option string) : ListParams :=
  {| Bucket := bucket_name self;
     MaxKeys := 1000;
     ContinuationToken :=
       if Py.truthy continuation_token then continuation_token else None |}.

(** [not response.get('IsTruncated', False)] is false exactly when the
    flag is present and true. *)
Definition is_truncated (response : ListResponse) : bool :=
  default false (IsTruncated response).

(** The [while True] loop of [list_all_objects], inside the [try].  It
    returns [inl e] when a request raised [e] and [inr objects] when it
    reached [break]. *)
Fixpoint list_loop (budget : nat) (objects : list Obj)
    (continuation_token : option string) : M W (ClientError + list Obj) :=
  match budget with
  | 0 => out_of_budget
  | S budget' =>
      r ← call_list_objects_v2 (list_params continuation_token);
      match r with
      | inl e => mret (inl e)
      | inr response =>
          objects ← match Contents response with
                    | Some contents =>
                        print (MsgFoundInBatch (length contents)) ;;
                        mret (objects ++ contents)
                    | None => mret objects
                    end;
          if negb (is_truncated response) then mret (inr objects)
          else list_loop budget' objects (NextContinuationToken response)
      end
  end.

(** [list_all_objects] (lines 39-76); [budget] bounds the number of
    requests of its loop. *)
Definition list_all_objects (budget : nat) : M W (list Obj) :=
  print (MsgListing (bucket_name self)) ;;
  r ← list_loop budget [] None;
  match r with
  | inl e => print (MsgErrorListing e) ;; mret []
  | inr objects => print (MsgTotalFound (length objects)) ;; mret objects
  end.

(** ['Errors' in response and response['Errors']] *)
Definition reported_errors (response : DeleteResponse) : list DeleteError :=
  default [] (Errors response).

(** [delete_objects_batch] (lines 78-110) *)
Definition delete_objects_batch (objects : list Obj) : M W bool :=
  match objects with
  | [] => mret true
  | _ :: _ =>
      let delete_keys := map Key objects in
      r ← call_delete_objects
            {| DelBucket := bucket_name self;
               Objects := delete_keys;
               Quiet := false |};
      match r with
      | inr response =>
          match reported_errors response with
          | (_ :: _) as errors =>
              print MsgSomeDeletionsFailed ;;
              for_each errors
                (λ error, print (MsgKeyFailed (ErrKey error) (Message error))) ;;
              mret false
          | [] =>
              match Deleted response with
              | Some deleted => print (MsgSuccessfullyDeleted (length deleted))
              | None => mret ()
              end ;;
              mret true
          end
      | inl e => print (MsgErrorDeletingBatch e) ;; mret false
      end
  end.

(** [filter_images] (lines 112-126) *)
Definition filter_images (objects : list Obj) : M W (list Obj) :=
  let image_objects := image_objects_of objects in
  print (MsgImagesFound (length image_objects) (length objects)) ;;
  mret image_objects.

(** One turn of the deletion loop of [clean_bucket] (lines 181-191),
    for the index [i] of [range(0, len(objects_to_delete), batch_size)]. *)
Definition delete_turn (objects_to_delete : list Obj) (i total_deleted : nat)
    : M W nat :=
  let batch := Py.slice objects_to_delete i (i + batch_size) in
  print (MsgProcessingBatch (i / batch_size + 1) (length batch)) ;;
  ok ← delete_objects_batch batch;
  total_deleted ← (if ok : bool then mret (total_deleted + length batch)
                   else print (MsgFailedBatch (i / batch_size + 1)) ;;
                        mret total_deleted);
  (if i + batch_size <? length objects_to_delete then sleep else mret ()) ;;
  mret total_deleted.

(** [clean_bucket] from "Delete objects in batches" to its end
    (lines 175-193). *)
Definition delete_phase (objects_to_delete : list Obj) : M W unit :=
  print MsgStartingDeletion ;;
  total_deleted ←
    for_fold (Py.range 0 (length objects_to_delete) batch_size)
             (delete_turn objects_to_delete) 0;
  print (MsgCompleted total_deleted).

(** [clean_bucket] from "Show what will be deleted" to the dry-run
    test (lines 154-161). *)
Definition preview (objects_to_delete : list Obj) : M W unit :=
  print (MsgObjectsToDelete (length objects_to_delete)) ;;
  for_each (Py.enumerate (Py.slice objects_to_delete 0 10))
    (λ '(i, obj), print (MsgPreview (i + 1) (Key obj) (Size obj))) ;;
  (if 10 <? length objects_to_delete
   then print (MsgAndMore (length objects_to_delete - 10))
   else mret ()).

(** [clean_bucket] from "Confirm deletion" to its end (lines
    167-193). *)
Definition confirm_and_delete (objects_to_delete : list Obj) : M W unit :=
  print (MsgWarning (length objects_to_delete)) ;;
  answer ← call_input confirmation_prompt;
  let confirm := Py.strip answer in
  if negb (bool_decide (confirm = "DELETE"))
  then print MsgCancelled
  else delete_phase objects_to_delete.

(** [clean_bucket] (lines 128-193); [budget] is the budget of the
    listing. *)
Definition clean_bucket (budget : nat) (images_only dry_run : bool)
    : M W unit :=
  print (MsgStarting (bucket_name self)) ;;
  print (MsgMode images_only) ;;
  print (MsgDryRunFlag dry_run) ;;
  print MsgRule ;;
  all_objects ← list_all_objects budget;
  match all_objects with
  | [] => print MsgBucketEmpty
  | _ :: _ =>
      objects_to_delete ← (if images_only then filter_images all_objects
                           else mret all_objects);
      match objects_to_delete with
      | [] => print MsgNoMatching
      | _ :: _ =>
          preview objects_to_delete ;;
          if dry_run then print MsgDryRun
          else confirm_and_delete objects_to_delete
      end
  end.
End Cleaner.

(** ** The list objects of [filter_images]

    Python lists are objects that are shared through references.  This
    model of [filter_images] keeps the lists in a store, so that what
    the method does to its argument and to the list it returns can be
    told apart. *)

Module Store.

(** [[]]: a new empty list at an unused reference. *)
Definition new_list (h : gmap nat (list Obj)) : nat * gmap nat (list Obj) :=
  let r := fresh (dom h) in (r, <[r := []]> h).

(** [r.append(x)] *)
Definition append (r : nat) (x : Obj) (h : gmap nat (list Obj))
    : gmap nat (list Obj) :=
  alter (λ l, l ++ [x]) r h.

(** [for obj in r: body]: the iterator holds an index into the live
    list and stops when the index is past its end.  [budget] bounds
    the number of turns; the result is [None] when it is exhausted or
    when [r] is not a list. *)
Fixpoint for_in (budget : nat) (r i : nat)
    (body : Obj → gmap nat (list Obj) → gmap nat (list Obj))
    (h : gmap nat (list Obj)) : option (gmap nat (list Obj)) :=
  match budget with
  | 0 => None
  | S budget' =>
      match h !! r with
      | None => None
      | Some l =>
          match l !! i with
          | None => Some h
          | Some obj => for_in budget' r (S i) body (body obj h)
          end
      end
  end.

Definition filter_images (budget : nat) (objects : nat)
    (h : gmap nat (list Obj)) : option (nat * gmap nat (list Obj)) :=
  let '(image_objects, h) := new_list h in
  h ← for_in budget objects 0
        (λ obj h, if is_image_key (Key obj)
                  then append image_objects obj h else h) h;
  Some (image_objects, h).

End Store.

(** ** Reading the events of a run *)

Definition list_calls (t : list Event)
    : list (ListParams * (ClientError + ListResponse)) :=
  omap (λ e, match e with EvList p r => Some (p, r) | _ => None end) t.

Definition delete_calls (t : list Event)
    : list (DeleteRequest * (ClientError + DeleteResponse)) :=
  omap (λ e, match e with EvDelete q r => Some (q, r) | _ => None end) t.

Definition prompts (t : list Event) : list (string * string) :=
  omap (λ e, match e with EvInput p a => Some (p, a) | _ => None end) t.

Definition printed (t : list Event) : list Msg :=
  omap (λ e, match e with EvPrint m => Some m | _ => None end) t.

Definition sleeps (t : list Event) : nat :=
  length (omap (λ e, match e with EvSleep => Some () | _ => None end) t).

(** Events of a kind. *)
Definition is_print (e : Event) : Prop :=
  match e with EvPrint _ => True | _ => False end.

Definition is_print_or_list (e : Event) : Prop :=
  match e with EvPrint _ | EvList _ _ => True | _ => False end.

Definition is_not_input (e : Event) : Prop :=
  match e with EvInput _ _ => False | _ => True end.

(** The lines of the listing, of the filter and of the preview: every
    line but those that [clean_bucket] prints from the confirmation on
    and those of [delete_objects_batch]. *)
Definition is_preview_line (m : Msg) : Prop :=
  match m with
  | MsgStarting _ | MsgMode _ | MsgDryRunFlag _ | MsgRule
  | MsgListing _ | MsgFoundInBatch _ | MsgErrorListing _ | MsgTotalFound _
  | MsgImagesFound _ _ | MsgBucketEmpty | MsgNoMatching
  | MsgObjectsToDelete _ | MsgPreview _ _ _ | MsgAndMore _ | MsgDryRun => True
  | _ => False
  end.

(** A listing request or one of those lines. *)
Definition is_preview_event (e : Event) : Prop :=
  match e with
  | EvPrint m => is_preview_line m
  | EvList _ _ => True
  | _ => False
  end.

(** [only P m]: whatever the world, the run [m] causes events of the
    kind [P] only. *)
Definition only {W A} (P : Event → Prop) (m : M W A) : Prop :=
  ∀ w, Forall P (events (m w)).

(** ** Words for the deletion loop *)

(** The batches of the deletion loop: the slices [l[i:i + batch_size]]
    taken at the indices [i] of [range(0, len(l), batch_size)]. *)
Definition batches (objects_to_delete : list Obj) : list (list Obj) :=
  map (λ i, Py.slice objects_to_delete i (i + batch_size))
      (Py.range 0 (length objects_to_delete) batch_size).

(** The request [delete_objects_batch] sends for a batch. *)
Definition request_for (self : R2BucketCleaner) (batch : list Obj) : DeleteRequest :=
  {| DelBucket := bucket_name self; Objects := map Key batch; Quiet := false |}.

(** The ceiling of [n / b]. *)
Definition ceil_div (n b : nat) : nat := (n + (b - 1)) / b.


(** Whether [delete_objects_batch] returns [True] on this answer of the
    store: the request did not raise and the response lists no error. *)
Definition batch_succeeded (r : ClientError + DeleteResponse) : bool :=
  match r with
  | inr response => bool_decide (reported_errors response = [])
  | inl _ => false
  end.

(** What a delete call adds to [total_deleted]: the size of the batch
    when [delete_objects_batch] returned [True], nothing otherwise. *)
Definition counted (call : DeleteRequest * (ClientError + DeleteResponse)) : nat :=
  if batch_succeeded call.2 then length (Objects call.1) else 0.

Definition tally (calls : list (DeleteRequest * (ClientError + DeleteResponse)))
    : nat :=
  sum_list (map counted calls).



(** The number in the last line printed, when that line is the final
    report of [clean_bucket]. *)
Definition reported_tally (t : list Event) : option nat :=
  match last (printed t) with
  | Some (MsgCompleted total_deleted) => Some total_deleted
  | _ => None
  end.

(** ** Words for the listing loop *)

(** The entries of a page. *)
Definition entries (response : ListResponse) : list Obj :=
  default [] (Contents response).

(** The pages received: the responses of the listing requests that did
    not raise. *)
Definition pages (calls : list (ListParams * (ClientError + ListResponse)))
    : list ListResponse :=
  omap (λ call, match call.2 with inr response => Some response | inl _ => None end)
       calls.

(** A call that was answered with a page. *)
Definition answered (call : ListParams * (ClientError + ListResponse)) : Prop :=
  ∃ response, call.2 = inr response.

(** A call that was answered with a page marked truncated. *)
Definition answered_truncated (call : ListParams * (ClientError + ListResponse))
    : Prop :=
  ∃ response, call.2 = inr response ∧ is_truncated response = true.

(** The token of the request that follows a response supplying [next],
    as [list_params] computes it: a non-empty token goes through, an
    empty or missing one gives a request without token. *)
Definition sent_token (next : option string) : option string :=
  if Py.truthy next then next else None.

(** The requests carry the tokens of the responses: the first request
    carries [carry previous], each later one [carry] of the token that
    the response before it supplied, and no request follows one that
    raised. *)
Fixpoint tokens_chain (carry : option string → option string)
    (previous : option string)
    (calls : list (ListParams * (ClientError + ListResponse))) : Prop :=
  match calls with
  | [] => True
  | (params, r) :: rest =>
      ContinuationToken params = carry previous
      ∧ match r with
        | inr response => tokens_chain carry (NextContinuationToken response) rest
        | inl _ => rest = []
        end
  end.

(** No token on the first request, and every supplied token is passed
    on as it is. *)
Definition tokens_carried_verbatim := tokens_chain id None.

(** No token on the first request, and every supplied token is passed
    on when it is a non-empty string. *)
Definition tokens_carried_if_nonempty := tokens_chain sent_token None.

(** The listing stopped at the first page that was not marked
    truncated: every page but the last is truncated, the last is not. *)
Fixpoint ends_when_complete (received : list ListResponse) : Prop :=
  match received with
  | [] => False
  | [last_page] => is_truncated last_page = false
  | page :: rest => is_truncated page = true ∧ ends_when_complete rest
  end.

(** ** Words for [filter_images] *)

(** [key], compared without regard to case, ends with [ext]: it splits
    into a prefix and a suffix that is [ext] up to the case of its
    letters. *)
Definition ends_with_caseless (key ext : string) : Prop :=
  ∃ prefix suffix, key = prefix +:+ suffix ∧ Py.lower suffix = Py.lower ext.

(** ** The events of the parts of a run

    The lists below spell out the events of one part of a run; the
    lemmas [delete_objects_batch_run], [delete_turn_run] and
    [clean_bucket_run] prove that the methods cause exactly them. *)

(** The lines [delete_objects_batch] prints on an answer of the store. *)
Definition batch_report (r : ClientError + DeleteResponse) : list Event :=
  match r with
  | inr response =>
      match reported_errors response with
      | (_ :: _) as errors =>
          EvPrint MsgSomeDeletionsFailed
          :: map (λ error, EvPrint (MsgKeyFailed (ErrKey error) (Message error)))
                 errors
      | [] =>
          match Deleted response with
          | Some deleted => [EvPrint (MsgSuccessfullyDeleted (length deleted))]
          | None => []
          end
      end
  | inl e => [EvPrint (MsgErrorDeletingBatch e)]
  end.

(** The events of the turn of the deletion loop at index [i] when the
    store answers [r]. *)
Definition turn_events (self : R2BucketCleaner) (objects_to_delete : list Obj)
    (i : nat) (r : ClientError + DeleteResponse) : list Event :=
  let batch := Py.slice objects_to_delete i (i + batch_size) in
  [EvPrint (MsgProcessingBatch (i / batch_size + 1) (length batch));
   EvDelete (request_for self batch) r]
  ++ batch_report r
  ++ (if batch_succeeded r then []
      else [EvPrint (MsgFailedBatch (i / batch_size + 1))])
  ++ (if i + batch_size <? length objects_to_delete then [EvSleep] else []).

(** The first lines of [clean_bucket]. *)
Definition header (self : R2BucketCleaner) (images_only dry_run : bool)
    : list Event :=
  [EvPrint (MsgStarting (bucket_name self)); EvPrint (MsgMode images_only);
   EvPrint (MsgDryRunFlag dry_run); EvPrint MsgRule].

(** [objects_to_delete], and what computing it prints. *)
Definition selected (images_only : bool) (all_objects : list Obj) : list Obj :=
  if images_only then image_objects_of all_objects else all_objects.

Definition selection_events (images_only : bool) (all_objects : list Obj)
    : list Event :=
  if images_only
  then [EvPrint (MsgImagesFound (length (image_objects_of all_objects))
                                (length all_objects))]
  else [].

(** ** A scripted world

    A world that answers from a script: the listing answers in order
    (then an empty last page), one behaviour per delete request (then
    full success), and the lines typed at the prompt (then an empty
    line). *)

Record Script := {
  list_answers : list (ClientError + ListResponse);
  delete_answers : list (DeleteRequest → ClientError + DeleteResponse);
  typed : list string
}.

Definition last_empty_page : ListResponse :=
  {| Contents := None; IsTruncated := Some false; NextContinuationToken := None |}.

(** The store deletes every key of the request. *)
Definition all_deleted (q : DeleteRequest) : ClientError + DeleteResponse :=
  inr {| Deleted := Some (Objects q); Errors := None |}.

(** The request fails as a whole. *)
Definition request_fails (q : DeleteRequest) : ClientError + DeleteResponse :=
  inl (client_error "InternalError").


Global Instance script_client : S3Client Script := {|
  list_objects_v2 _ w :=
    match list_answers w with
    | r :: rs => (r, {| list_answers := rs; delete_answers := delete_answers w;
                        typed := typed w |})
    | [] => (inr last_empty_page, w)
    end;
  delete_objects q w :=
    match delete_answers w with
    | f :: fs => (f q, {| list_answers := list_answers w; delete_answers := fs;
                          typed := typed w |})
    | [] => (all_deleted q, w)
    end
|}.

Global Instance script_console : Console Script := {|
  input _ w :=
    match typed w with
    | a :: rest => (a, {| list_answers := list_answers w;
                          delete_answers := delete_answers w; typed := rest |})
    | [] => ("", w)
    end
|}.

(** ** Sample data and sample runs *)

Definition sample_key (n : nat) : string := "img/" +:+ pretty n +:+ ".png".

Definition sample_objects (first count : nat) : list Obj :=
  map (λ n, {| Key := sample_key n; Size := 2048 |}) (seq first count).

(** A page with its entries; it is marked truncated when it supplies a
    token. *)
Definition page (objects : list Obj) (next : option string) : ListResponse :=
  {| Contents := Some objects;
     IsTruncated := Some (bool_decide (is_Some next));
     NextContinuationToken := next |}.

Definition cleaner : R2BucketCleaner :=
  {| bucket_name := "photos"; account_id := "0123456789abcdef" |}.

(** Three objects in one page. *)
Definition three_objects : list Obj := sample_objects 0 3.

Definition one_page (typed_lines : list string)
    (answers : list (DeleteRequest → ClientError + DeleteResponse)) : Script :=
  {| list_answers := [inr (page three_objects None)];
     delete_answers := answers;
     typed := typed_lines |}.


(** The operator types a space before DELETE. *)
Definition padded_answer_run : Outcome Script () :=
  clean_bucket cleaner 5 false false (one_page [" DELETE"] []).

(** The operator declines. *)
Definition declined_run : Outcome Script () :=
  clean_bucket cleaner 5 false false (one_page ["no"] []).

(** The first page is marked truncated and supplies the empty string as
    its token. *)
Definition empty_token_world : Script :=
  {| list_answers := [inr (page (sample_objects 0 2) (Some ""));
                      inr (page (sample_objects 2 1) None)];
     delete_answers := [];
     typed := [] |}.

(** Pages of 1000, 1000 and 37 entries. *)
Definition three_pages_world : Script :=
  {| list_answers := [inr (page (sample_objects 0 1000) (Some "t1"));
                      inr (page (sample_objects 1000 1000) (Some "t2"));
                      inr (page (sample_objects 2000 37) None)];
     delete_answers := [];
     typed := [] |}.


(** A bucket without image files. *)
Definition text_objects : list Obj :=
  [{| Key := "notes.txt"; Size := 120 |}; {| Key := "Makefile"; Size := 64 |}].

Definition no_images_world : Script :=
  {| list_answers := [inr (page text_objects None)];
     delete_answers := [];
     typed := ["DELETE"] |}.

(** Three batches, the second of which fails as a whole. *)
Definition second_batch_fails_world : Script :=
  {| list_answers := [];
     delete_answers := [all_deleted; request_fails; all_deleted];
     typed := [] |}.

(** A store of list objects holding one list at reference 7. *)
Definition mixed_objects : list Obj :=
  [{| Key := "a.TXT"; Size := 1 |}; {| Key := "b.JpG"; Size := 2 |};
   {| Key := "c.png"; Size := 3 |}].

Definition mixed_store : gmap nat (list Obj) := {[ 7 := mixed_objects ]}.

(** ** The entry point [main]

    [main] (lines 196-266) reads the command line, checks the
    configuration written in its body and runs [clean_bucket] in the
    mode asked for.  [Args] is the namespace that [parser.parse_args()]
    returns; the parser itself belongs to [argparse].  The four values
    of [config] are meant to be edited in the script, so [main] takes
    them as an argument, and [shipped_config] is the text as it stands.
    The client that [__init__] (lines 17-37) builds from the account and
    the keys is the [S3Client] of the world; the methods modelled here
    raise nothing, so the three handlers at the end of [main] have
    nothing to catch. *)

Record Args := {
  args_dry_run : bool;
  args_delete_all : bool;
  args_delete_images : bool;
  args_images_only : bool
}.


Record Config := {
  config_account_id : string;
  config_access_key : string;
  config_secret_key : string;
  config_bucket_name : string
}.

Definition shipped_config : Config :=
  {| config_account_id := "your-cloudflare-account-id";
     config_access_key := "your-r2-access-key";
     config_secret_key := "your-r2-secret-key";
     config_bucket_name := "your-bucket-name" |}.

(** [config.values()], in the order of the dictionary. *)
Definition config_values (config : Config) : list string :=
  [config_account_id config; config_access_key config;
   config_secret_key config; config_bucket_name config].

(** [any(value.startswith('your-') for value in config.values())] *)
Definition has_placeholder (config : Config) : bool :=
  existsb (λ value, Py.startswith value "your-") (config_values config).

(** The cleaner that [main] constructs from [config]: the fields that
    [__init__] stores. *)
Definition new_cleaner (config : Config) : R2BucketCleaner :=
  {| bucket_name := config_bucket_name config;
     account_id := config_account_id config |}.

(** The lines [main] prints itself. *)
Inductive MainLine :=
| LineUpdateConfiguration
| LineRequiredValues
| LineAccountId
| LineAccessKey
| LineSecretKey
| LineBucketName
| LineDryRunMode
| LineDeleteAllMode
| LineDeleteImagesMode.

Definition refusal : list MainLine :=
  [LineUpdateConfiguration; LineRequiredValues; LineAccountId; LineAccessKey;
   LineSecretKey; LineBucketName].

(** A run of [main]: the lines it prints first, and the run of
    [clean_bucket] that follows them, if any. *)
Record MainRun (W : Type) := mkMainRun {
  banner : list MainLine;
  cleaning : option (Outcome W ())
}.
Arguments mkMainRun {W} _ _.
Arguments banner {W} _.
Arguments cleaning {W} _.

Section Main.
Context {W : Type} `{!S3Client W, !Console W}.

(** [main] from "Validate configuration" on (lines 234-258). *)
Definition main (config : Config) (args : Args) (budget : nat) (w : W)
    : MainRun W :=
  if has_placeholder config then mkMainRun refusal None
  else
    let cleaner := new_cleaner config in
    if args_dry_run args then
      let images_only := args_images_only args in
      mkMainRun [LineDryRunMode]
                (Some (clean_bucket cleaner budget images_only true w))
    else if args_delete_all args then
      mkMainRun [LineDeleteAllMode]
                (Some (clean_bucket cleaner budget false false w))
    else if args_delete_images args then
      mkMainRun [LineDeleteImagesMode]
                (Some (clean_bucket cleaner budget true false w))
    else mkMainRun [] None.
End Main.

(** The events of the cleaner in a run of [main]. *)
Definition cleaning_events {W} (run : MainRun W) : list Event :=
  from_option events [] (cleaning run).

(** ** Words for whole runs *)

(** The keys that the delete requests of a run name, in order. *)
Definition requested_keys (t : list Event) : list string :=
  concat (map (λ call, Objects call.1) (delete_calls t)).

(** The entries of the pages that the listing requests of a run
    received, in order. *)
Definition listed (t : list Event) : list Obj :=
  concat (map entries (pages (list_calls t))).

(** The events of the deletion loop: lines, delete requests, pauses. *)
Definition is_deletion_event (e : Event) : Prop :=
  match e with EvPrint _ | EvDelete _ _ | EvSleep => True | _ => False end.

(** The preview: its object lines, and the number its last line
    announces as not shown. *)
Definition previewed (t : list Event) : list (nat * string * Z) :=
  omap (λ m, match m with
             | MsgPreview index key size => Some (index, key, size)
             | _ => None
             end) (printed t).

Definition announced_more (t : list Event) : nat :=
  sum_list (omap (λ m, match m with MsgAndMore n => Some n | _ => None end)
                 (printed t)).

(** An event that is not an object line of the preview. *)
Definition outside_preview (e : Event) : Prop :=
  match e with
  | EvPrint (MsgPreview _ _ _) | EvPrint (MsgAndMore _) => False
  | _ => True
  end.

(** The numbers of the per-page lines of the listing, and the numbers
    of its total lines. *)
Definition found_counts (t : list Event) : list nat :=
  omap (λ m, match m with MsgFoundInBatch n => Some n | _ => None end)
       (printed t).

Definition totals (t : list Event) : list nat :=
  omap (λ m, match m with MsgTotalFound n => Some n | _ => None end)
       (printed t).

(** ** Sample configurations and worlds for [main] *)

(** A configuration without placeholders, and the three modes. *)
Definition sample_config : Config :=
  {| config_account_id := "0123456789abcdef";
     config_access_key := "AKIAEXAMPLE";
     config_secret_key := "s3cr3t";
     config_bucket_name := "photos" |}.

Definition dry_run_mode (images_only : bool) : Args :=
  {| args_dry_run := true; args_delete_all := false;
     args_delete_images := false; args_images_only := images_only |}.

Definition delete_all_mode (images_only : bool) : Args :=
  {| args_dry_run := false; args_delete_all := true;
     args_delete_images := false; args_images_only := images_only |}.

Definition delete_images_mode : Args :=
  {| args_dry_run := false; args_delete_all := false;
     args_delete_images := true; args_images_only := false |}.

(** One page holding the mixed sample list; the operator confirms. *)
Definition mixed_world : Script :=
  {| list_answers := [inr (page mixed_objects None)];
     delete_answers := [];
     typed := ["DELETE"] |}.

(** A store that marks every page truncated, and an operator who
    confirms. *)
Inductive Endless := endless.

Definition endless_page : ListResponse := page three_objects (Some "next").

Global Instance endless_client : S3Client Endless := {|
  list_objects_v2 _ w := (inr endless_page, w);
  delete_objects q w := (all_deleted q, w)
|}.

Global Instance endless_console : Console Endless := {|
  input _ w := ("DELETE", w)
|}.

(** One page of twelve objects; the operator confirms. *)
Definition twelve_world : Script :=
  {| list_answers := [inr (page (sample_objects 0 12) None)];
     delete_answers := [];
     typed := ["DELETE"] |}.


(** The operator confirms and the store deletes every key. *)
Definition confirmed_run : Outcome Script () :=
  clean_bucket cleaner 5 false false (one_page ["DELETE"] []).

(** * Properties *)

(** ** The built-ins on small inputs *)

Example range_cases :
  Py.range 0 2500 1000 = [0; 1000; 2000]
  ∧ Py.range 0 2000 1000 = [0; 1000]
  ∧ Py.range 0 1 1000 = [0]
  ∧ Py.range 0 0 1000 = [].
Proof. repeat split; reflexivity. Qed.

Example slice_cases :
  Py.slice [1; 2; 3; 4; 5] 1 3 = [2; 3]
  ∧ Py.slice [1; 2; 3; 4; 5] 3 10 = [4; 5]
  ∧ Py.slice [1; 2; 3] 5 7 = []
  ∧ Py.enumerate ["a"; "b"] = [(0, "a"); (1, "b")].
Proof. repeat split; reflexivity. Qed.

Example strip_cases :
  Py.strip " DELETE" = "DELETE"
  ∧ Py.strip (String (ascii_of_nat 9) "DELETE  ") = "DELETE"
  ∧ Py.strip " a b " = "a b"
  ∧ Py.strip "   " = ""
  ∧ Py.strip "delete" = "delete".
Proof. repeat split; reflexivity. Qed.

Example lower_endswith_cases :
  Py.lower "Photo.JPG" = "photo.jpg"
  ∧ Py.endswith "photo.jpg" ".jpg" = true
  ∧ Py.endswith ".jpg" ".jpg" = true
  ∧ Py.endswith "jpg" ".jpg" = false
  ∧ Py.endswith "photo.jpg.txt" ".jpg" = false
  ∧ is_image_key "A/B/Scan.TIFF" = true
  ∧ is_image_key "png" = false.
Proof. repeat split; reflexivity. Qed.

Example truthy_cases :
  Py.truthy None = false ∧ Py.truthy (Some "") = false
  ∧ Py.truthy (Some "t1") = true.
Proof. repeat split; reflexivity. Qed.

(** ** Ranges and slices *)

Lemma batch_size_pos : 0 < batch_size.
Proof. unfold batch_size. lia. Qed.

Lemma ceil_div_step n b : 0 < b → 0 < n → ceil_div n b = S (ceil_div (n - b) b).
Proof.
  intros Hb Hn. unfold ceil_div.
  destruct (decide (n ≤ b)) as [Hle|Hgt].
  - replace (n - b) with 0 by lia.
    rewrite (Nat.div_small (0 + (b - 1)) b) by lia.
    symmetry. apply (Nat.div_unique _ _ 1 (n - 1)); lia.
  - replace (n + (b - 1)) with ((n - b + (b - 1)) + 1 * b) by lia.
    rewrite Nat.div_add by lia. lia.
Qed.

Lemma ceil_div_0 b : 0 < b → ceil_div 0 b = 0.
Proof. intros Hb. unfold ceil_div. apply Nat.div_small. lia. Qed.

(** [ceil_div n b] is the least number of groups of [b] that hold [n]. *)
Lemma ceil_div_least n b :
  0 < b → n ≤ ceil_div n b * b ∧ ∀ k, n ≤ k * b → ceil_div n b ≤ k.
Proof.
  intros Hb. unfold ceil_div.
  pose proof (Nat.div_mod_eq (n + (b - 1)) b) as Hdm.
  pose proof (Nat.mod_upper_bound (n + (b - 1)) b ltac:(lia)) as Hlt.
  split; [nia|].
  intros k Hk. apply Nat.lt_succ_r, Nat.Div0.div_lt_upper_bound. nia.
Qed.

Lemma range_from_closed budget i stop step :
  0 < step → stop - i ≤ budget →
  Py.range_from budget i stop step
  = map (λ k, i + k * step) (seq 0 (ceil_div (stop - i) step)).
Proof.
  intros Hstep. revert i.
  induction budget as [|budget IH]; intros i Hb; simpl.
  - replace (stop - i) with 0 by lia. by rewrite ceil_div_0.
  - destruct (Nat.ltb_spec i stop) as [Hlt|Hge].
    + rewrite (ceil_div_step (stop - i) step) by lia.
      rewrite IH by lia. simpl. f_equal; [lia|].
      replace (stop - i - step) with (stop - (i + step)) by lia.
      rewrite <- seq_shift, map_map. apply map_ext. intros k. lia.
    + replace (stop - i) with 0 by lia. by rewrite ceil_div_0.
Qed.

Lemma range_closed stop step :
  0 < step →
  Py.range 0 stop step = map (λ k, k * step) (seq 0 (ceil_div stop step)).
Proof.
  intros Hstep. unfold Py.range.
  rewrite range_from_closed by lia. by rewrite Nat.sub_0_r.
Qed.

Lemma range_in_bounds stop step i :
  0 < step → i ∈ Py.range 0 stop step → i < stop.
Proof.
  intros Hstep. rewrite range_closed by done.
  intros Hin. apply list_elem_of_In, in_map_iff in Hin as (k & <- & Hk).
  apply in_seq in Hk.
  destruct (ceil_div_least stop step Hstep) as [_ Hleast].
  destruct (decide (k * step < stop)) as [|Hge]; [done|].
  specialize (Hleast k ltac:(lia)). lia.
Qed.

Lemma slice_whole {A} (l : list A) i b : Py.slice l i (i + b) = take b (drop i l).
Proof. unfold Py.slice. f_equal. lia. Qed.

Lemma slices_concat {A} (l : list A) b n i :
  0 < b →
  concat (map (λ k, Py.slice l (i + k * b) (i + k * b + b)) (seq 0 n))
  = take (n * b) (drop i l).
Proof.
  intros Hb. revert i. induction n as [|n IH]; intros i; simpl.
  - by rewrite take_0.
  - rewrite <- seq_shift, map_map.
    rewrite (map_ext _ (λ k, Py.slice l (i + b + k * b) (i + b + k * b + b))).
    2:{ intros k. f_equal; lia. }
    rewrite IH, Nat.add_0_r, slice_whole.
    rewrite <- (take_take_drop (drop i l) b (n * b)).
    by rewrite drop_drop.
Qed.

(** ** The batches of the deletion loop *)

Lemma batches_closed objs :
  batches objs
  = map (λ k, Py.slice objs (k * batch_size) (k * batch_size + batch_size))
        (seq 0 (ceil_div (length objs) batch_size)).
Proof.
  unfold batches. rewrite range_closed by (unfold batch_size; lia).
  by rewrite map_map.
Qed.

Lemma batches_concat objs : concat (batches objs) = objs.
Proof.
  rewrite batches_closed.
  rewrite (slices_concat objs batch_size _ 0) by (unfold batch_size; lia).
  rewrite drop_0. apply take_ge.
  apply (ceil_div_least (length objs) batch_size). unfold batch_size; lia.
Qed.

Lemma batches_length objs :
  length (batches objs) = ceil_div (length objs) batch_size.
Proof. by rewrite batches_closed, length_map, length_seq. Qed.

Lemma batches_bounded objs :
  Forall (λ batch, 0 < length batch ≤ batch_size) (batches objs).
Proof.
  unfold batches. apply Forall_forall. intros batch Hin.
  apply list_elem_of_In, in_map_iff in Hin as (i & <- & Hi).
  apply list_elem_of_In, range_in_bounds in Hi; [|unfold batch_size; lia].
  rewrite slice_whole, length_take, length_drop. unfold batch_size. lia.
Qed.




(** ** Runs *)

Section Runs.
Context {W : Type}.

Lemma events_bind {A B} (m : M W A) (f : A → M W B) w :
  events ((m ≫= f) w)
  = events (m w) ++ match result (m w) with
                    | Some a => events (f a (world (m w)))
                    | None => []
                    end.
Proof.
  unfold mbind, M_bind. destruct (result (m w)); simpl; [done|].
  by rewrite app_nil_r.
Qed.

Lemma result_bind {A B} (m : M W A) (f : A → M W B) w :
  result ((m ≫= f) w)
  = match result (m w) with
    | Some a => result (f a (world (m w)))
    | None => None
    end.
Proof. unfold mbind, M_bind. by destruct (result (m w)). Qed.

Lemma world_bind {A B} (m : M W A) (f : A → M W B) w :
  world ((m ≫= f) w)
  = match result (m w) with
    | Some a => world (f a (world (m w)))
    | None => world (m w)
    end.
Proof. unfold mbind, M_bind. by destruct (result (m w)). Qed.

Lemma outcome_eq {A} (o1 o2 : Outcome W A) :
  result o1 = result o2 → world o1 = world o2 → events o1 = events o2 →
  o1 = o2.
Proof. destruct o1, o2. simpl. by intros -> -> ->. Qed.

Lemma only_ret {A} P (a : A) : only (W:=W) P (mret a).
Proof. intros w. constructor. Qed.

Lemma only_bind {A B} P (m : M W A) (f : A → M W B) :
  only P m → (∀ a, only P (f a)) → only P (m ≫= f).
Proof.
  intros Hm Hf w. rewrite events_bind. apply Forall_app. split; [apply Hm|].
  destruct (result (m w)); [apply Hf|constructor].
Qed.

Lemma only_out_of_budget {A} P : only (W:=W) (A:=A) P out_of_budget.
Proof. intros w. constructor. Qed.

Lemma only_for_each {A} P (l : list A) (body : A → M W unit) :
  (∀ x, only P (body x)) → only P (for_each l body).
Proof.
  intros Hbody. induction l as [|x l IH]; simpl.
  - apply only_ret.
  - apply only_bind; [apply Hbody|]. intros _. apply IH.
Qed.

Lemma only_for_fold {A S} P (l : list A) (body : A → S → M W S) s :
  (∀ x s, only P (body x s)) → only P (for_fold l body s).
Proof.
  intros Hbody. revert s. induction l as [|x l IH]; intros s; simpl.
  - apply only_ret.
  - apply only_bind; [apply Hbody|]. intros s'. apply IH.
Qed.

Lemma only_impl {A} (P Q : Event → Prop) (m : M W A) :
  (∀ e, P e → Q e) → only P m → only Q m.
Proof. intros HPQ Hm w. eapply Forall_impl; [apply Hm|]. exact HPQ. Qed.
End Runs.

Lemma omap_none_on {A B} (P : A → Prop) (f : A → option B) (l : list A) :
  (∀ x, P x → f x = None) → Forall P l → omap f l = [].
Proof.
  intros Hf Hl. induction Hl as [|x l Hx _ IH]; [done|].
  simpl. by rewrite (Hf x Hx).
Qed.

Lemma prints_no_delete_calls t : Forall is_print_or_list t → delete_calls t = [].
Proof. apply omap_none_on. by intros []. Qed.

Lemma prints_no_prompts t : Forall is_print_or_list t → prompts t = [].
Proof. apply omap_none_on. by intros []. Qed.

Lemma prints_no_sleeps t : Forall is_print_or_list t → sleeps t = 0.
Proof.
  intros Ht. unfold sleeps.
  by rewrite (omap_none_on is_print_or_list) by (done || by intros []).
Qed.

Lemma no_input_no_prompts t : Forall is_not_input t → prompts t = [].
Proof. apply omap_none_on. by intros []. Qed.

Lemma prints_no_list_calls t : Forall is_print t → list_calls t = [].
Proof. apply omap_none_on. by intros []. Qed.

Lemma delete_calls_app t1 t2 :
  delete_calls (t1 ++ t2) = delete_calls t1 ++ delete_calls t2.
Proof. apply omap_app. Qed.

Lemma delete_calls_cons_print m t : delete_calls (EvPrint m :: t) = delete_calls t.
Proof. reflexivity. Qed.

Lemma printed_app t1 t2 : printed (t1 ++ t2) = printed t1 ++ printed t2.
Proof. apply omap_app. Qed.

Lemma prompts_app t1 t2 : prompts (t1 ++ t2) = prompts t1 ++ prompts t2.
Proof. apply omap_app. Qed.

Lemma list_calls_app t1 t2 : list_calls (t1 ++ t2) = list_calls t1 ++ list_calls t2.
Proof. apply omap_app. Qed.

Lemma sleeps_app t1 t2 : sleeps (t1 ++ t2) = sleeps t1 + sleeps t2.
Proof. unfold sleeps. by rewrite omap_app, length_app. Qed.

Lemma printed_elem m t : EvPrint m ∈ t → m ∈ printed t.
Proof. intros Hin. apply list_elem_of_omap. by exists (EvPrint m). Qed.

Lemma is_print_weaken e : is_print e → is_print_or_list e.
Proof. by destruct e. Qed.

(** ** Which events each method can cause *)

Section Footprints.
Context {W : Type} `{!S3Client W, !Console W}.
Variable self : R2BucketCleaner.

Lemma only_print (P : Event → Prop) msg :
  P (EvPrint msg) → only (W:=W) P (print msg).
Proof. intros HP w. by repeat constructor. Qed.

Lemma only_call_list_objects_v2 (P : Event → Prop) params :
  (∀ r, P (EvList params r)) → only P (call_list_objects_v2 params).
Proof.
  intros HP w. unfold call_list_objects_v2.
  destruct (list_objects_v2 params w). by repeat constructor.
Qed.

Lemma only_call_delete_objects (P : Event → Prop) request :
  (∀ r, P (EvDelete request r)) → only P (call_delete_objects request).
Proof.
  intros HP w. unfold call_delete_objects.
  destruct (delete_objects request w). by repeat constructor.
Qed.

Lemma only_sleep (P : Event → Prop) : P EvSleep → only (W:=W) P sleep.
Proof. intros HP w. by repeat constructor. Qed.

Ltac footprint :=
  repeat match goal with
    | |- only _ (mret _) => apply only_ret
    | |- only _ out_of_budget => apply only_out_of_budget
    | |- only _ (print _) => apply only_print; exact I
    | |- only _ sleep => apply only_sleep; exact I
    | |- only _ (call_list_objects_v2 _) =>
        apply only_call_list_objects_v2; intros; exact I
    | |- only _ (call_delete_objects _) =>
        apply only_call_delete_objects; intros; exact I
    | |- only _ (for_each _ _) => apply only_for_each; intros ?
    | |- only _ (for_fold _ _ _) => apply only_for_fold; intros ? ?
    | |- only _ (_ ≫= _) => apply only_bind; [|intros ?]
    | |- only _ (match ?x with _ => _ end) => destruct x
    end.

Lemma list_loop_only budget objects continuation_token :
  only is_print_or_list (list_loop self budget objects continuation_token).
Proof.
  revert objects continuation_token.
  induction budget as [|budget IH]; intros objects tok; simpl.
  - apply only_out_of_budget.
  - footprint. apply IH.
Qed.

Lemma list_all_objects_only budget :
  only is_print_or_list (list_all_objects self budget).
Proof. unfold list_all_objects. footprint. apply list_loop_only. Qed.

Lemma filter_images_only objects : only (W:=W) is_print (filter_images objects).
Proof. unfold filter_images. footprint. Qed.

Lemma preview_only objects : only (W:=W) is_print (preview objects).
Proof. unfold preview. footprint. Qed.

Lemma delete_phase_no_input objects :
  only is_not_input (delete_phase self objects).
Proof.
  unfold delete_phase. footprint.
  unfold delete_turn, delete_objects_batch. footprint.
Qed.

Lemma list_loop_preview budget objects continuation_token :
  only is_preview_event (list_loop self budget objects continuation_token).
Proof.
  revert objects continuation_token.
  induction budget as [|budget IH]; intros objects tok; simpl.
  - apply only_out_of_budget.
  - footprint. apply IH.
Qed.

Lemma clean_bucket_dry_run_preview budget images_only :
  only is_preview_event (clean_bucket self budget images_only true).
Proof.
  unfold clean_bucket, list_all_objects, filter_images, preview.
  footprint; apply list_loop_preview.
Qed.

Lemma is_preview_weaken e : is_preview_event e → is_print_or_list e.
Proof. by destruct e. Qed.

Lemma preview_lines t :
  Forall is_preview_event t → Forall is_preview_line (printed t).
Proof.
  induction 1 as [|e t He _ IH]; [constructor|].
  destruct e; cbn; try done. by constructor.
Qed.

(** C4. Whatever the [images_only] flag, the bucket and the answers of
    the store, a run of [clean_bucket] with [dry_run = True] issues no
    delete request: no [delete_objects] call occurs among its events,
    also when the listing is cut short.  Nor does it reach the deletion
    loop at all: it asks for no confirmation, makes no pause, and prints
    only lines of the listing, the filter and the preview, none of
    [delete_objects_batch] or of the loop around it. *)
Theorem dry_run_never_deletes (budget : nat) (images_only : bool) (w : W) :
  delete_calls (events (clean_bucket self budget images_only true w)) = []
  ∧ prompts (events (clean_bucket self budget images_only true w)) = []
  ∧ sleeps (events (clean_bucket self budget images_only true w)) = 0
  ∧ Forall is_preview_line
           (printed (events (clean_bucket self budget images_only true w))).
Proof.
  pose proof (clean_bucket_dry_run_preview budget images_only w) as Hpreview.
  assert (Forall is_print_or_list
            (events (clean_bucket self budget images_only true w))) as Hquiet.
  { eapply Forall_impl; [exact Hpreview|apply is_preview_weaken]. }
  split; [by apply prints_no_delete_calls|].
  split; [by apply prints_no_prompts|].
  split; [by apply prints_no_sleeps|].
  by apply preview_lines.
Qed.
End Footprints.

(** ** Strings *)

Lemma app_cons c s t : String c s +:+ t = String c (s +:+ t).
Proof. reflexivity. Qed.

Lemma len_app s t : Py.len (s +:+ t) = Py.len s + Py.len t.
Proof. induction s as [|c s IH]; [done|]. rewrite app_cons. simpl. by rewrite IH. Qed.

Lemma from_app s t : Py.from (Py.len s) (s +:+ t) = t.
Proof. induction s as [|c s IH]; [by destruct t|]. by rewrite app_cons. Qed.

Lemma from_split n s : ∃ p, s = p +:+ Py.from n s.
Proof.
  revert s. induction n as [|n IH]; intros s.
  - by exists "".
  - destruct s as [|c s]; [by exists ""|].
    destruct (IH s) as [p Hp]. exists (String c p).
    rewrite app_cons. simpl. by rewrite <- Hp.
Qed.

Lemma endswith_spec s suffix :
  Py.endswith s suffix = true ↔ ∃ p, s = p +:+ suffix.
Proof.
  unfold Py.endswith. rewrite andb_true_iff, bool_decide_eq_true. split.
  - intros [_ Hfrom]. destruct (from_split (Py.len s - Py.len suffix) s) as [p Hp].
    exists p. by rewrite <- Hfrom.
  - intros [p ->]. rewrite len_app. split; [apply Nat.leb_le; lia|].
    replace (Py.len p + Py.len suffix - Py.len suffix) with (Py.len p) by lia.
    apply from_app.
Qed.

Lemma lower_app s t : Py.lower (s +:+ t) = Py.lower s +:+ Py.lower t.
Proof.
  induction s as [|c s IH]; [done|].
  rewrite app_cons. simpl. by rewrite IH, app_cons.
Qed.

Lemma lower_split key p e :
  Py.lower key = p +:+ e →
  ∃ p' s', key = p' +:+ s' ∧ Py.lower p' = p ∧ Py.lower s' = e.
Proof.
  revert key. induction p as [|c p IH]; intros key Hkey.
  - by exists "", key.
  - destruct key as [|k key]; [done|].
    rewrite app_cons in Hkey. simpl in Hkey. injection Hkey as Hc Hrest.
    destruct (IH key Hrest) as (p' & s' & -> & <- & <-).
    exists (String k p'), s'. rewrite app_cons. simpl. by rewrite Hc.
Qed.

Lemma image_extensions_lower :
  Forall (λ ext, Py.lower ext = ext) image_extensions.
Proof. repeat constructor. Qed.

(** ** [filter_images] *)

Lemma is_image_key_spec key :
  is_image_key key = true
  ↔ ∃ ext, ext ∈ image_extensions ∧ ends_with_caseless key ext.
Proof.
  unfold is_image_key. rewrite existsb_exists. split.
  - intros (ext & Hin & Hends). exists ext.
    apply list_elem_of_In in Hin. split; [done|].
    apply endswith_spec in Hends as [p Hp].
    apply lower_split in Hp as (p' & s' & -> & _ & Hs').
    exists p', s'. split; [done|].
    pose proof image_extensions_lower as Hlow.
    rewrite Forall_forall in Hlow. by rewrite (Hlow ext Hin).
  - intros (ext & Hin & p' & s' & -> & Hs'). exists ext.
    split; [by apply list_elem_of_In|].
    apply endswith_spec. exists (Py.lower p').
    pose proof image_extensions_lower as Hlow.
    rewrite Forall_forall in Hlow.
    by rewrite lower_app, Hs', (Hlow ext Hin).
Qed.

Lemma image_objects_fold objects acc :
  fold_left
    (λ image_objects obj,
       if is_image_key (Key obj) then image_objects ++ [obj] else image_objects)
    objects acc
  = acc ++ List.filter (λ obj, is_image_key (Key obj)) objects.
Proof.
  revert acc. induction objects as [|obj objects IH]; intros acc; simpl.
  - by rewrite app_nil_r.
  - rewrite IH. destruct (is_image_key (Key obj)); [|done].
    by rewrite <- app_assoc.
Qed.

Lemma image_objects_filter objects :
  image_objects_of objects = List.filter (λ obj, is_image_key (Key obj)) objects.
Proof. unfold image_objects_of. by rewrite image_objects_fold. Qed.

Lemma filter_twice {A} (p : A → bool) (l : list A) :
  List.filter p (List.filter p l) = List.filter p l.
Proof.
  induction l as [|x l IH]; [done|]. simpl.
  destruct (p x) eqn:Hp; [|done]. simpl. by rewrite Hp, IH.
Qed.

(** C9. [filter_images] is a function of its argument alone: whatever
    the world, it returns the same list, leaves the world as it is and
    only prints its one line of statistics.  The list it returns holds
    exactly the objects of the input whose key, compared without regard
    to case, ends with one of the thirteen image extensions.  Filtering
    twice gives what filtering once gives, and the empty list is
    filtered to the empty list. *)
Theorem filter_images_selects {W : Type} `{!S3Client W, !Console W}
    (objects : list Obj) (w : W) :
  let image_objects := image_objects_of objects in
  result (filter_images objects w) = Some image_objects
  ∧ world (filter_images objects w) = w
  ∧ events (filter_images objects w)
    = [EvPrint (MsgImagesFound (length image_objects) (length objects))]
  ∧ (∀ obj, obj ∈ image_objects
            ↔ obj ∈ objects
              ∧ ∃ ext, ext ∈ image_extensions ∧ ends_with_caseless (Key obj) ext)
  ∧ image_objects_of image_objects = image_objects
  ∧ image_objects_of [] = [].
Proof.
  intros image_objects. subst image_objects.
  split; [done|]. split; [done|]. split; [done|].
  split; [|split; [|done]].
  - intros obj.
    rewrite image_objects_filter, !list_elem_of_In.
    by rewrite filter_In, is_image_key_spec.
  - rewrite !image_objects_filter. apply filter_twice.
Qed.

(** ** [filter_images] and the list it is given *)

Lemma filter_sublist {A} (p : A → bool) (l : list A) :
  List.filter p l `sublist_of` l.
Proof.
  induction l as [|x l IH]; simpl; [constructor|].
  destruct (p x); by constructor.
Qed.

Lemma for_in_appends budget objects r objs i acc (h : gmap nat (list Obj)) :
  r ≠ objects →
  h !! objects = Some objs →
  h !! r = Some acc →
  length objs - i < budget →
  Store.for_in budget objects i
    (λ obj h, if is_image_key (Key obj) then Store.append r obj h else h) h
  = Some (<[r := acc ++ List.filter (λ obj, is_image_key (Key obj)) (drop i objs)]> h).
Proof.
  intros Hne. revert i acc h.
  induction budget as [|budget IH]; intros i acc h Hobjs Hacc Hbudget; [lia|].
  simpl. rewrite Hobjs.
  destruct (objs !! i) as [obj|] eqn:Hi.
  - rewrite (drop_S objs obj i Hi). simpl.
    apply lookup_lt_Some in Hi as Hlt.
    destruct (is_image_key (Key obj)).
    + unfold Store.append. rewrite (alter_alt_Some _ h r acc Hacc).
      rewrite (IH (S i) (acc ++ [obj])).
      * by rewrite insert_insert_eq, <- app_assoc.
      * by rewrite lookup_insert_ne.
      * by rewrite lookup_insert_eq.
      * lia.
    + apply IH; [done..|lia].
  - apply lookup_ge_None_1 in Hi. rewrite drop_ge by done. simpl.
    by rewrite app_nil_r, insert_id.
Qed.

(** C10. Given a list object, [filter_images] builds its result in a
    new list and leaves every existing list, its argument included, as
    it was.  The new list holds the image objects of the argument: it is
    a subsequence of the argument (the same objects in the same relative
    order), so each of its elements occurs in the argument. *)
Theorem filter_images_keeps_input (h : gmap nat (list Obj)) (objects : nat)
    (objs : list Obj) (budget : nat) :
  h !! objects = Some objs →
  length objs < budget →
  ∃ image_objects h' out,
    Store.filter_images budget objects h = Some (image_objects, h')
    ∧ h' !! objects = Some objs
    ∧ h !! image_objects = None
    ∧ (∀ r, r ≠ image_objects → h' !! r = h !! r)
    ∧ h' !! image_objects = Some out
    ∧ out = image_objects_of objs
    ∧ out `sublist_of` objs
    ∧ ∀ obj, obj ∈ out → obj ∈ objs.
Proof.
  intros Hobjs Hbudget.
  set (r := fresh (dom h)).
  assert (h !! r = None) as Hfresh by apply not_elem_of_dom, is_fresh.
  assert (r ≠ objects) as Hne by (intros ->; congruence).
  exists r, (<[r := image_objects_of objs]> h), (image_objects_of objs).
  split.
  { unfold Store.filter_images, Store.new_list. fold r.
    rewrite (for_in_appends budget objects r objs 0 []);
      [|done|by rewrite lookup_insert_ne|by rewrite lookup_insert_eq|lia].
    simpl. by rewrite insert_insert_eq, drop_0, image_objects_filter. }
  split; [by rewrite lookup_insert_ne|].
  split; [done|].
  split; [by intros r' Hr'; rewrite lookup_insert_ne|].
  split; [by rewrite lookup_insert_eq|].
  split; [done|].
  rewrite image_objects_filter.
  split; [apply filter_sublist|].
  intros obj Hin. eapply elem_of_sublist; [done|apply filter_sublist].
Qed.

(** ** The deletion loop *)

Lemma tally_cons call calls : tally (call :: calls) = counted call + tally calls.
Proof. reflexivity. Qed.

Lemma tally_app calls1 calls2 : tally (calls1 ++ calls2) = tally calls1 + tally calls2.
Proof.
  induction calls1 as [|call calls1 IH]; [done|].
  rewrite <- app_comm_cons, !tally_cons, IH. lia.
Qed.

Section DeletePhase.
Context {W : Type} `{!S3Client W, !Console W}.
Variable self : R2BucketCleaner.

Lemma for_each_print {A} (f : A → Msg) (l : list A) (w : W) :
  for_each l (λ x, print (f x)) w
  = mkOutcome (Some ()) w (map (λ x, EvPrint (f x)) l).
Proof.
  induction l as [|x l IH]; [done|].
  simpl. unfold mbind, M_bind. simpl. by rewrite IH.
Qed.

Lemma delete_objects_batch_run (batch : list Obj) (w : W) :
  batch ≠ [] →
  delete_objects_batch self batch w
  = let r := (delete_objects (request_for self batch) w).1 in
    mkOutcome (Some (batch_succeeded r))
              (delete_objects (request_for self batch) w).2
              (EvDelete (request_for self batch) r :: batch_report r).
Proof.
  intros Hbatch. destruct batch as [|obj batch]; [done|].
  unfold delete_objects_batch, request_for, mbind, M_bind, call_delete_objects.
  destruct (delete_objects _ w) as [[e|response] w']; simpl; [done|].
  unfold batch_succeeded.
  destruct (reported_errors response) as [|error errors] eqn:Herrors; simpl.
  - by destruct (Deleted response).
  - rewrite for_each_print. simpl. by rewrite app_nil_r.
Qed.

Lemma delete_turn_run (objs : list Obj) (i total : nat) (w : W) :
  i < length objs →
  let batch := Py.slice objs i (i + batch_size) in
  let r := (delete_objects (request_for self batch) w).1 in
  delete_turn self objs i total w
  = mkOutcome (Some (total + counted (request_for self batch, r)))
              (delete_objects (request_for self batch) w).2
              (turn_events self objs i r).
Proof.
  intros Hi batch r.
  assert (0 < length batch) as Hlen.
  { subst batch. rewrite slice_whole, length_take, length_drop.
    pose proof batch_size_pos. lia. }
  assert (batch ≠ []) as Hbatch.
  { intros Hnil. rewrite Hnil in Hlen. simpl in Hlen. lia. }
  unfold delete_turn, turn_events, counted. fold batch. cbn [fst snd].
  apply outcome_eq; cbn [result world events];
    rewrite ?events_bind, ?result_bind, ?world_bind;
    cbn [result world events print];
    rewrite ?(delete_objects_batch_run batch w Hbatch); fold r;
    cbn [result world events print];
    destruct (batch_succeeded r);
    rewrite ?events_bind, ?result_bind, ?world_bind;
    cbn [result world events print mret M_ret];
    destruct (i + batch_size <? length objs);
    rewrite ?events_bind, ?result_bind, ?world_bind;
    cbn [result world events print mret M_ret sleep];
    unfold request_for; cbn [Objects app];
    rewrite ?length_map, ?Nat.add_0_r, ?app_nil_r; done.
Qed.

(** The loop runs through all its indices whatever the store answers:
    its events are the events of its turns, one after the other. *)
Lemma delete_loop_run (objs : list Obj) (indices : list nat) (total : nat) (w : W) :
  Forall (λ i, i < length objs) indices →
  ∃ answers,
    length answers = length indices
    ∧ events (for_fold indices (delete_turn self objs) total w)
      = concat (zip_with (turn_events self objs) indices answers)
    ∧ result (for_fold indices (delete_turn self objs) total w)
      = Some (total
              + tally (zip (map (λ i, request_for self
                                        (Py.slice objs i (i + batch_size)))
                                indices) answers)).
Proof.
  intros Hin. revert total w.
  induction Hin as [|i indices Hi _ IH]; intros total w.
  - exists []. cbn. by rewrite Nat.add_0_r.
  - cbn [for_fold]. rewrite events_bind, result_bind.
    rewrite (delete_turn_run objs i total w Hi). cbn [result world events].
    set (batch := Py.slice objs i (i + batch_size)).
    set (r := (delete_objects (request_for self batch) w).1).
    destruct (IH (total + counted (request_for self batch, r))
                 (delete_objects (request_for self batch) w).2)
      as (answers & Hlen & Hev & Hres).
    exists (r :: answers). split; [simpl; by rewrite Hlen|].
    split; [by rewrite Hev|].
    rewrite Hres. cbn [map zip zip_with]. fold batch.
    rewrite tally_cons. f_equal. lia.
Qed.
Lemma batch_report_prints r : Forall is_print (batch_report r).
Proof.
  destruct r as [e|response]; cbn [batch_report]; [by repeat constructor|].
  destruct (reported_errors response) as [|error errors].
  - destruct (Deleted response); by repeat constructor.
  - constructor; [done|]. rewrite List.Forall_map. by apply Forall_true.
Qed.

Lemma delete_calls_turn objs i r :
  delete_calls (turn_events self objs i r)
  = [(request_for self (Py.slice objs i (i + batch_size)), r)].
Proof.
  unfold turn_events, delete_calls. rewrite !omap_app.
  rewrite (omap_none_on is_print _ (batch_report r));
    [|by intros []|apply batch_report_prints].
  by destruct (batch_succeeded r), (i + batch_size <? length objs).
Qed.

Lemma delete_calls_turns objs indices answers :
  length answers = length indices →
  delete_calls (concat (zip_with (turn_events self objs) indices answers))
  = zip (map (λ i, request_for self (Py.slice objs i (i + batch_size)))
             indices) answers.
Proof.
  revert answers. induction indices as [|i indices IH];
    intros [|r answers] Hlen; try done.
  cbn [zip_with concat map]. unfold delete_calls at 1.
  rewrite omap_app. fold (delete_calls (turn_events self objs i r)).
  rewrite delete_calls_turn. simpl. f_equal. apply IH. simpl in Hlen. lia.
Qed.

Lemma delete_phase_run (objs : list Obj) (w : W) :
  ∃ answers,
    length answers = length (batches objs)
    ∧ result (delete_phase self objs w) = Some ()
    ∧ delete_calls (events (delete_phase self objs w))
      = zip (map (request_for self) (batches objs)) answers
    ∧ events (delete_phase self objs w)
      = EvPrint MsgStartingDeletion
        :: concat (zip_with (turn_events self objs)
                            (Py.range 0 (length objs) batch_size) answers)
        ++ [EvPrint (MsgCompleted
                       (tally (delete_calls (events (delete_phase self objs w)))))].
Proof.
  assert (Forall (λ i, i < length objs) (Py.range 0 (length objs) batch_size))
    as Hin.
  { apply Forall_forall. intros i Hi.
    by apply (range_in_bounds _ batch_size), Hi; apply batch_size_pos. }
  destruct (delete_loop_run objs _ 0 w Hin) as (answers & Hlen & Hev & Hres).
  assert (map (λ i, request_for self (Py.slice objs i (i + batch_size)))
              (Py.range 0 (length objs) batch_size)
          = map (request_for self) (batches objs)) as Hreqs.
  { unfold batches. by rewrite map_map. }
  assert (events (delete_phase self objs w)
          = EvPrint MsgStartingDeletion
            :: concat (zip_with (turn_events self objs)
                                (Py.range 0 (length objs) batch_size) answers)
            ++ [EvPrint (MsgCompleted
                   (tally (zip (map (request_for self) (batches objs)) answers)))])
    as Hevents.
  { unfold delete_phase. rewrite !events_bind. cbn [result world events print].
    by rewrite Hres, Hev, Hreqs. }
  assert (delete_calls (events (delete_phase self objs w))
          = zip (map (request_for self) (batches objs)) answers) as Hcalls.
  { rewrite Hevents, delete_calls_cons_print, delete_calls_app.
    rewrite delete_calls_turns, Hreqs by done. apply app_nil_r. }
  exists answers. split.
  { by rewrite Hlen; unfold batches; rewrite length_map. }
  split.
  { unfold delete_phase. rewrite !result_bind. cbn [result world events print].
    by rewrite Hres. }
  split; [done|]. by rewrite Hcalls.
Qed.




End DeletePhase.

(** ** The listing loop *)

Section Listing.
Context {W : Type} `{!S3Client W, !Console W}.
Variable self : R2BucketCleaner.

(** One turn of the loop. *)
Lemma list_loop_step budget objects continuation_token (w : W) :
  let params := list_params self continuation_token in
  let r := (list_objects_v2 params w).1 in
  let w1 := (list_objects_v2 params w).2 in
  list_loop self (S budget) objects continuation_token w
  = match r with
    | inl e => mkOutcome (Some (inl e)) w1 [EvList params r]
    | inr response =>
        let found := match Contents response with
                     | Some contents =>
                         [EvPrint (MsgFoundInBatch (length contents))]
                     | None => []
                     end in
        let objects' := objects ++ entries response in
        if is_truncated response
        then let rest := list_loop self budget objects'
                           (NextContinuationToken response) w1 in
             mkOutcome (result rest) (world rest)
                       (EvList params r :: found ++ events rest)
        else mkOutcome (Some (inr objects')) w1 (EvList params r :: found)
    end.
Proof.
  intros params r w1. subst r w1.
  cbn [list_loop]. fold params.
  unfold mbind at 1. unfold M_bind, call_list_objects_v2.
  destruct (list_objects_v2 params w) as [[e|response] w1];
    cbn [fst snd result world events].
  { done. }
  unfold entries.
  destruct (Contents response) as [contents|];
    destruct (is_truncated response) eqn:Htrunc;
    apply outcome_eq; cbn [result world events default];
    rewrite ?events_bind, ?result_bind, ?world_bind;
    cbn [result world events print mret M_ret negb];
    rewrite ?events_bind, ?result_bind, ?world_bind;
    cbn [result world events print mret M_ret negb];
    rewrite ?app_nil_r; done.
Qed.
Lemma list_calls_turn params r found rest :
  Forall is_print found →
  list_calls (EvList params r :: found ++ rest) = (params, r) :: list_calls rest.
Proof.
  intros Hfound.
  change (EvList params r :: found ++ rest)
    with ([EvList params r] ++ found ++ rest).
  by rewrite !list_calls_app, (prints_no_list_calls found).
Qed.

Lemma found_prints (contents : option (list Obj)) :
  Forall is_print match contents with
                  | Some contents => [EvPrint (MsgFoundInBatch (length contents))]
                  | None => []
                  end.
Proof. destruct contents; by repeat constructor. Qed.

(** What the loop has done when it stops, for each way of stopping. *)
Lemma list_loop_run budget objects continuation_token (w : W) :
  let run := list_loop self budget objects continuation_token w in
  let calls := list_calls (events run) in
  tokens_chain sent_token continuation_token calls
  ∧ match result run with
    | None => length calls = budget ∧ Forall answered_truncated calls
    | Some (inr listed) =>
        listed = objects ++ concat (map entries (pages calls))
        ∧ Forall answered calls
        ∧ ends_when_complete (pages calls)
    | Some (inl e) =>
        ∃ calls0 params,
          calls = calls0 ++ [(params, inl e)] ∧ Forall answered_truncated calls0
    end.
Proof.
  revert objects continuation_token w.
  induction budget as [|budget IH]; intros objects tok w; [by cbn|].
  cbv zeta. rewrite list_loop_step. cbv zeta.
  set (params := list_params self tok).
  destruct (list_objects_v2 params w) as [[e|response] w1]; cbn [fst snd].
  { cbn. split; [done|]. by exists [], params. }
  destruct (is_truncated response) eqn:Htrunc; cbn [result world events].
  - rewrite list_calls_turn by apply found_prints.
    destruct (IH (objects ++ entries response) (NextContinuationToken response) w1)
      as [Htokens Hresult].
    split; [done|].
    destruct (result (list_loop self budget _ _ w1)) as [[e|listed]|].
    + destruct Hresult as (calls0 & params' & -> & Hcalls0).
      exists ((params, inr response) :: calls0), params'.
      split; [done|]. constructor; [by exists response|done].
    + destruct Hresult as (-> & Hanswered & Hends).
      split; [|split].
      * cbn. by rewrite <- app_assoc.
      * constructor; [by exists response|done].
      * cbn [pages omap list_omap snd]. fold (pages (list_calls
          (events (list_loop self budget (objects ++ entries response)
             (NextContinuationToken response) w1)))).
        destruct (pages _) as [|page rest]; [done|]. by split.
    + destruct Hresult as [Hlen Hall]. split; [by cbn; rewrite Hlen|].
      constructor; [by exists response|done].
  - rewrite <- (app_nil_r (match Contents response with
                           | Some _ => _ | None => _ end)).
    rewrite list_calls_turn by apply found_prints.
    cbn. split; [done|]. split; [by rewrite app_nil_r|].
    split; [|done]. constructor; [by exists response|done].
Qed.
(** Every request names the bucket and asks for pages of at most 1000
    entries. *)
Lemma list_loop_requests budget objects continuation_token (w : W) :
  Forall (λ call, Bucket call.1 = bucket_name self ∧ MaxKeys call.1 = 1000)
         (list_calls (events (list_loop self budget objects continuation_token w))).
Proof.
  revert objects continuation_token w.
  induction budget as [|budget IH]; intros objects tok w; [by constructor|].
  rewrite list_loop_step. cbv zeta.
  set (params := list_params self tok).
  destruct (list_objects_v2 params w) as [[e|response] w1]; cbn [fst snd].
  { by repeat constructor. }
  destruct (is_truncated response); cbn [events].
  - rewrite list_calls_turn by apply found_prints. by constructor.
  - rewrite <- (app_nil_r (match Contents response with
                           | Some _ => _ | None => _ end)).
    rewrite list_calls_turn by apply found_prints. by repeat constructor.
Qed.

End Listing.

(** ** [list_all_objects] and [clean_bucket] as a whole *)

Section Whole.
Context {W : Type} `{!S3Client W, !Console W}.
Variable self : R2BucketCleaner.

Ltac run_simpl :=
  repeat (rewrite ?events_bind, ?result_bind, ?world_bind;
          cbn [result world events print mret M_ret]).

Lemma list_all_objects_run budget (w : W) :
  let loop := list_loop self budget [] None w in
  list_all_objects self budget w
  = mkOutcome
      match result loop with
      | Some (inl _) => Some []
      | Some (inr objects) => Some objects
      | None => None
      end
      (world loop)
      (EvPrint (MsgListing (bucket_name self))
       :: events loop
       ++ match result loop with
          | Some (inl e) => [EvPrint (MsgErrorListing e)]
          | Some (inr objects) => [EvPrint (MsgTotalFound (length objects))]
          | None => []
          end).
Proof.
  intros loop. unfold list_all_objects. fold loop.
  apply outcome_eq; run_simpl; fold loop;
    destruct (result loop) as [[e|objects]|]; run_simpl;
    rewrite ?app_nil_r; done.
Qed.

Lemma list_all_objects_calls budget (w : W) :
  list_calls (events (list_all_objects self budget w))
  = list_calls (events (list_loop self budget [] None w)).
Proof.
  rewrite list_all_objects_run. cbn [events].
  change (EvPrint ?m :: ?t) with ([EvPrint m] ++ t).
  rewrite !list_calls_app.
  rewrite (prints_no_list_calls [_]) by (by repeat constructor).
  rewrite (prints_no_list_calls (match result _ with
                                 | Some _ => _ | None => _ end)).
  - by rewrite app_nil_r.
  - destruct (result _) as [[e|objects]|]; by repeat constructor.
Qed.

Lemma length_concat_entries (received : list ListResponse) :
  length (concat (map entries received))
  = sum_list (map (λ page, length (entries page)) received).
Proof.
  induction received as [|page received IH]; [done|].
  cbn [map concat]. rewrite length_app, IH. done.
Qed.

(** C6 (amended). Whatever the store answers, [list_all_objects] asks
    the bucket for pages of at most 1000 entries; it
    sends its first request without a continuation token and every
    later request with the token that the response before it
    supplied, provided that token is a non-empty string (an empty or
    missing token makes the next request carry no token).  When the
    run ends and no request raised, every request was answered, the
    list returned is the entries of all pages received, in order, so
    its size is the sum of the page sizes, and the listing stopped at
    the first page not marked truncated.  When the step budget runs
    out first, every one of the [budget] requests made was answered
    with a page marked truncated: the loop stops for no other
    reason. *)
Theorem list_all_objects_pages (budget : nat) (w : W) :
  let run := list_all_objects self budget w in
  let calls := list_calls (events run) in
  Forall (λ call, Bucket call.1 = bucket_name self ∧ MaxKeys call.1 = 1000) calls
  ∧ tokens_carried_if_nonempty calls
  ∧ match result run with
    | Some objects =>
        (∃ params e, last calls = Some (params, inl e))
        ∨ (Forall answered calls
           ∧ objects = concat (map entries (pages calls))
           ∧ length objects
             = sum_list (map (λ page, length (entries page)) (pages calls))
           ∧ ends_when_complete (pages calls))
    | None => length calls = budget ∧ Forall answered_truncated calls
    end.
Proof.
  intros run calls. subst run calls.
  rewrite list_all_objects_calls, list_all_objects_run. cbn [result].
  destruct (list_loop_run self budget [] None w) as [Htokens Hresult].
  split; [apply list_loop_requests|]. split; [done|].
  destruct (result (list_loop self budget [] None w)) as [[e|objects]|].
  - left. destruct Hresult as (calls0 & params & -> & _).
    exists params, e. apply last_snoc.
  - right. destruct Hresult as (-> & Hanswered & Hends).
    cbn [app]. by rewrite length_concat_entries.
  - done.
Qed.


Lemma for_each_total {A} (l : list A) (body : A → M W unit) (w : W) :
  (∀ x w, result (body x w) = Some () ∧ world (body x w) = w) →
  result (for_each l body w) = Some () ∧ world (for_each l body w) = w.
Proof.
  intros Hbody. induction l as [|x l IH]; [done|].
  cbn [for_each]. rewrite result_bind, world_bind.
  destruct (Hbody x w) as [-> ->]. done.
Qed.

Lemma preview_total objects (w : W) :
  result (preview objects w) = Some () ∧ world (preview objects w) = w.
Proof.
  unfold preview. run_simpl.
  destruct (for_each_total (Py.enumerate (Py.slice objects 0 10))
              (λ '(i, obj), print (MsgPreview (i + 1) (Key obj) (Size obj))) w)
    as [-> ->]; [by intros [i obj] w'|].
  by destruct (10 <? length objects).
Qed.

(** [clean_bucket], branch by branch. *)
Lemma clean_bucket_run budget images_only dry_run (w : W) :
  let listing := list_all_objects self budget w in
  let w1 := world listing in
  let before := header self images_only dry_run ++ events listing in
  clean_bucket self budget images_only dry_run w
  = match result listing with
    | None => mkOutcome None w1 before
    | Some [] => mkOutcome (Some ()) w1 (before ++ [EvPrint MsgBucketEmpty])
    | Some all_objects =>
        match selected images_only all_objects with
        | [] =>
            mkOutcome (Some ()) w1
              (before ++ selection_events images_only all_objects
               ++ [EvPrint MsgNoMatching])
        | objects_to_delete =>
            let shown := before ++ selection_events images_only all_objects
                         ++ events (preview objects_to_delete w1) in
            if dry_run
            then mkOutcome (Some ()) w1 (shown ++ [EvPrint MsgDryRun])
            else let rest := confirm_and_delete self objects_to_delete w1 in
                 mkOutcome (result rest) (world rest) (shown ++ events rest)
        end
    end.
Proof.
  intros listing w1 before. subst before w1.
  unfold clean_bucket, header. fold listing.
  destruct (result listing) as [[|obj all_objects]|] eqn:Hlisting.
  - apply outcome_eq; run_simpl; fold listing; rewrite Hlisting; run_simpl;
      rewrite <- ?app_assoc; done.
  - set (all := obj :: all_objects) in *.
    unfold selected, selection_events.
    destruct images_only.
    + destruct (image_objects_of all) as [|obj' objs'] eqn:Himages.
      * apply outcome_eq; run_simpl; fold listing; rewrite Hlisting;
          subst all; run_simpl; unfold filter_images; run_simpl;
          rewrite Himages; run_simpl; rewrite <- ?app_assoc; done.
      * destruct (preview_total (obj' :: objs') (world listing)) as [Hpr Hpw].
        destruct dry_run;
          apply outcome_eq; run_simpl; fold listing; rewrite Hlisting;
          subst all; run_simpl; unfold filter_images; run_simpl;
          rewrite Himages; run_simpl; rewrite ?Hpr, ?Hpw; run_simpl;
          rewrite <- ?app_assoc; done.
    + destruct (preview_total all (world listing)) as [Hpr Hpw].
      destruct dry_run;
        apply outcome_eq; run_simpl; fold listing; rewrite Hlisting;
        subst all; run_simpl;
        rewrite ?Hpr, ?Hpw; run_simpl;
        rewrite <- ?app_assoc; done.
  - apply outcome_eq; run_simpl; fold listing; rewrite Hlisting; run_simpl;
      rewrite ?app_nil_r; done.
Qed.
Lemma confirm_and_delete_run objects_to_delete (w : W) :
  let answer := (input confirmation_prompt w).1 in
  let w' := (input confirmation_prompt w).2 in
  let asked := [EvPrint (MsgWarning (length objects_to_delete));
                EvInput confirmation_prompt answer] in
  confirm_and_delete self objects_to_delete w
  = if bool_decide (Py.strip answer = "DELETE")
    then let rest := delete_phase self objects_to_delete w' in
         mkOutcome (result rest) (world rest) (asked ++ events rest)
    else mkOutcome (Some ()) w' (asked ++ [EvPrint MsgCancelled]).
Proof.
  intros answer w' asked. subst answer w' asked.
  unfold confirm_and_delete, call_input.
  destruct (input confirmation_prompt w) as [answer w'] eqn:Hinput.
  cbn [fst snd].
  destruct (bool_decide (Py.strip answer = "DELETE")) eqn:Hconfirm;
    apply outcome_eq; run_simpl; rewrite Hinput; run_simpl;
    rewrite Hconfirm; cbn [negb]; run_simpl; done.
Qed.

Lemma shown_quiet budget images_only dry_run all_objects objects (w w1 : W) :
  Forall is_print_or_list
    ((header self images_only dry_run
      ++ events (list_all_objects self budget w))
     ++ selection_events images_only all_objects
     ++ events (preview objects w1)).
Proof.
  rewrite !Forall_app. split; [split|split].
  - by repeat constructor.
  - apply list_all_objects_only.
  - destruct images_only; by repeat constructor.
  - eapply Forall_impl; [apply preview_only|apply is_print_weaken].
Qed.

Lemma before_quiet budget images_only dry_run (w : W) :
  Forall is_print_or_list
    (header self images_only dry_run ++ events (list_all_objects self budget w)).
Proof.
  rewrite Forall_app. split; [by repeat constructor|apply list_all_objects_only].
Qed.

Lemma selection_quiet images_only all_objects :
  Forall is_print_or_list (selection_events images_only all_objects).
Proof. destruct images_only; by repeat constructor. Qed.

Lemma batches_nonempty (objects : list Obj) : objects ≠ [] → batches objects ≠ [].
Proof.
  intros Hobjects Hnil. apply (f_equal length) in Hnil.
  rewrite batches_length in Hnil. cbn [length] in Hnil.
  destruct (ceil_div_least (length objects) batch_size batch_size_pos) as [Hle _].
  rewrite Hnil in Hle. destruct objects; [done|]. cbn in Hle. lia.
Qed.

(** The gate itself: what [clean_bucket] does from the prompt on. *)
Lemma confirm_and_delete_gate objects_to_delete (w : W) :
  objects_to_delete ≠ [] →
  let run := confirm_and_delete self objects_to_delete w in
  let answer := (input confirmation_prompt w).1 in
  prompts (events run) = [(confirmation_prompt, answer)]
  ∧ (Py.strip answer ≠ "DELETE" →
       result run = Some ()
       ∧ delete_calls (events run) = []
       ∧ sleeps (events run) = 0
       ∧ printed (events run)
         = [MsgWarning (length objects_to_delete); MsgCancelled])
  ∧ (Py.strip answer = "DELETE" →
       map fst (delete_calls (events run))
         = map (request_for self) (batches objects_to_delete)
       ∧ delete_calls (events run) ≠ []
       ∧ MsgStartingDeletion ∈ printed (events run)).
Proof.
  intros Hne run answer. subst run.
  rewrite confirm_and_delete_run. cbv zeta. fold answer.
  set (w2 := (input confirmation_prompt w).2).
  destruct (bool_decide (Py.strip answer = "DELETE")) eqn:Hconfirm;
    cbn [result world events].
  - apply bool_decide_eq_true in Hconfirm.
    destruct (delete_phase_run self objects_to_delete w2)
      as (answers & Hlen & _ & Hcalls & Hevents).
    split; [|split; [done|intros _; split; [|split]]].
    + rewrite prompts_app.
      by rewrite (no_input_no_prompts _ (delete_phase_no_input self _ w2)).
    + rewrite delete_calls_app, Hcalls. cbn [app delete_calls omap].
      change (map fst ?l) with (fst <$> l).
      apply fst_zip. rewrite length_map. lia.
    + rewrite delete_calls_app, Hcalls.
      pose proof (batches_nonempty objects_to_delete Hne) as Hbatches.
      destruct (batches objects_to_delete); [done|].
      by destruct answers.
    + apply printed_elem, elem_of_app. right.
      rewrite Hevents. apply elem_of_cons. by left.
  - apply bool_decide_eq_false in Hconfirm. done.
Qed.

(** C5 (amended). Take a run of [clean_bucket] without [dry_run] whose
    listing returns and leaves a non-empty list of objects to delete.
    The run asks for confirmation exactly once; the answer is stripped
    of leading and trailing white space and then compared with DELETE.
    When the stripped answer differs from DELETE the run ends with the
    cancellation line and has issued no delete request and no pause;
    when it equals DELETE the deletion starts and the delete requests
    of all batches of the list are sent. *)
Theorem confirmation_gate (budget : nat) (images_only : bool) (w : W)
    (all_objects : list Obj) :
  let listing := list_all_objects self budget w in
  let run := clean_bucket self budget images_only false w in
  let answer := (input confirmation_prompt (world listing)).1 in
  result listing = Some all_objects →
  selected images_only all_objects ≠ [] →
  prompts (events run) = [(confirmation_prompt, answer)]
  ∧ (Py.strip answer ≠ "DELETE" →
       result run = Some ()
       ∧ delete_calls (events run) = []
       ∧ sleeps (events run) = 0
       ∧ last (printed (events run)) = Some MsgCancelled)
  ∧ (Py.strip answer = "DELETE" →
       map fst (delete_calls (events run))
         = map (request_for self) (batches (selected images_only all_objects))
       ∧ delete_calls (events run) ≠ []
       ∧ MsgStartingDeletion ∈ printed (events run)).
Proof.
  intros listing run answer Hlisting Hselected. subst listing run answer.
  rewrite clean_bucket_run. cbv zeta. rewrite Hlisting.
  destruct all_objects as [|obj all].
  { by destruct images_only. }
  destruct (selected images_only (obj :: all)) as [|obj' objs]; [done|].
  pose proof (shown_quiet budget images_only false (obj :: all) (obj' :: objs) w
                (world (list_all_objects self budget w))) as Hshown.
  set (w1 := world (list_all_objects self budget w)) in *.
  set (shown := (header self images_only false ++ _) ++ _) in *.
  destruct (confirm_and_delete_gate (obj' :: objs) w1 ltac:(done))
    as (Hprompts & Hcancel & Hproceed).
  set (rest := confirm_and_delete self (obj' :: objs) w1) in *.
  cbn [result world events].
  rewrite prompts_app, (prints_no_prompts _ Hshown), Hprompts.
  rewrite delete_calls_app, sleeps_app, printed_app.
  rewrite (prints_no_delete_calls _ Hshown), (prints_no_sleeps _ Hshown).
  rewrite !app_nil_l, Nat.add_0_l.
  split; [done|]. split.
  - intros Hanswer. destruct (Hcancel Hanswer) as (? & ? & ? & Hprinted).
    repeat split; [done..|]. rewrite Hprinted, last_app. done.
  - intros Hanswer. destruct (Hproceed Hanswer) as (? & ? & Hstart).
    split; [done|]. split; [done|]. apply elem_of_app. by right.
Qed.


(** C8. When the listing is empty, or when only images are asked for
    and the listing holds none, [clean_bucket] ends at once with its
    line for that case: it asks for no confirmation and sends no
    delete request. *)
Theorem nothing_to_delete (budget : nat) (images_only dry_run : bool) (w : W)
    (all_objects : list Obj) :
  let run := clean_bucket self budget images_only dry_run w in
  result (list_all_objects self budget w) = Some all_objects →
  all_objects = [] ∨ (images_only = true ∧ image_objects_of all_objects = []) →
  result run = Some ()
  ∧ prompts (events run) = []
  ∧ delete_calls (events run) = []
  ∧ sleeps (events run) = 0
  ∧ last (printed (events run))
    = Some (match all_objects with [] => MsgBucketEmpty | _ => MsgNoMatching end).
Proof.
  intros run Hlisting Hempty. subst run.
  rewrite clean_bucket_run. cbv zeta. rewrite Hlisting.
  pose proof (before_quiet budget images_only dry_run w) as Hbefore.
  pose proof (selection_quiet images_only all_objects) as Hsel.
  assert (selected images_only all_objects = []) as Hselected.
  { destruct Hempty as [->|[-> Himages]]; [by destruct images_only|done]. }
  assert (Forall is_print_or_list
            ((header self images_only dry_run
              ++ events (list_all_objects self budget w))
             ++ selection_events images_only all_objects)) as Hquiet.
  { by apply Forall_app. }
  destruct all_objects as [|obj all]; [|rewrite Hselected, app_assoc];
    cbn [result events];
    rewrite delete_calls_app, prompts_app, sleeps_app, printed_app;
    rewrite ?(prints_no_delete_calls _ Hbefore), ?(prints_no_prompts _ Hbefore),
      ?(prints_no_sleeps _ Hbefore),
      ?(prints_no_delete_calls _ Hquiet), ?(prints_no_prompts _ Hquiet),
      ?(prints_no_sleeps _ Hquiet);
    rewrite last_app; done.
Qed.
End Whole.

(** ** The sample runs *)

(** The example of the specification: 2500 objects make batches of
    1000, 1000 and 500. *)
Example batches_of_2500 :
  map length (batches (sample_objects 0 2500)) = [1000; 1000; 500].
Proof. vm_compute. reflexivity. Qed.

(** With three batches of which the second fails as a whole, all three
    requests are sent, the failure of batch 2 is printed, the total
    counts the first and the third batch, and the loop pauses between
    the batches. *)
Example second_batch_fails :
  let run := delete_phase cleaner (sample_objects 0 2500) second_batch_fails_world in
  map (λ call, length (Objects call.1)) (delete_calls (events run))
    = [1000; 1000; 500]
  ∧ map (λ call, batch_succeeded call.2) (delete_calls (events run))
    = [true; false; true]
  ∧ printed (events run)
    = [MsgStartingDeletion;
       MsgProcessingBatch 1 1000; MsgSuccessfullyDeleted 1000;
       MsgProcessingBatch 2 1000;
       MsgErrorDeletingBatch (client_error "InternalError"); MsgFailedBatch 2;
       MsgProcessingBatch 3 500; MsgSuccessfullyDeleted 500;
       MsgCompleted 1500]
  ∧ sleeps (events run) = 2.
Proof. vm_compute. repeat split; reflexivity. Qed.




(** C5, counterexample: the operator types a space and then DELETE; the
    input is not the literal DELETE, and yet the deletion is carried
    out. *)
Lemma padded_answer_is_accepted :
  prompts (events padded_answer_run) = [(confirmation_prompt, " DELETE")]
  ∧ " DELETE" ≠ "DELETE"
  ∧ map (λ call, Objects call.1) (delete_calls (events padded_answer_run))
    = [["img/0.png"; "img/1.png"; "img/2.png"]]
  ∧ reported_tally (events padded_answer_run) = Some 3.
Proof. vm_compute. repeat split; try reflexivity. discriminate. Qed.

(** [confirmation_gate] at a run in which the operator types no. *)
Lemma confirmation_gate_witness :
  prompts (events declined_run) = [(confirmation_prompt, "no")]
  ∧ result declined_run = Some ()
  ∧ delete_calls (events declined_run) = []
  ∧ sleeps (events declined_run) = 0
  ∧ last (printed (events declined_run)) = Some MsgCancelled.
Proof.
  destruct (confirmation_gate cleaner 5 false (one_page ["no"] []) three_objects)
    as (Hprompts & Hcancel & _).
  - vm_compute. reflexivity.
  - vm_compute. discriminate.
  - split; [exact Hprompts|]. apply Hcancel. vm_compute. discriminate.
Defined.

(** C6, counterexample: the first page is marked truncated and supplies
    the empty string as its token; the second request carries no token
    at all, so the supplied token was not carried forward. *)
Lemma empty_token_is_dropped :
  map (λ call, ContinuationToken call.1)
      (list_calls (events (list_all_objects cleaner 5 empty_token_world)))
    = [None; None]
  ∧ map NextContinuationToken
        (pages (list_calls (events (list_all_objects cleaner 5 empty_token_world))))
    = [Some ""; None]
  ∧ ¬ tokens_carried_verbatim
        (list_calls (events (list_all_objects cleaner 5 empty_token_world))).
Proof.
  vm_compute. split; [reflexivity|]. split; [reflexivity|].
  intros [_ [Htoken _]]. discriminate Htoken.
Qed.

(** The example of the specification: pages of 1000, 1000 and 37
    entries give 2037 objects, asked for with no token, then with the
    token of the first page, then with the token of the second. *)
Example three_pages_listed :
  let run := list_all_objects cleaner 5 three_pages_world in
  (length <$> result run) = Some 2037
  ∧ map (λ call, ContinuationToken call.1) (list_calls (events run))
    = [None; Some "t1"; Some "t2"]
  ∧ last (printed (events run)) = Some (MsgTotalFound 2037).
Proof. vm_compute. repeat split; reflexivity. Qed.


(** [nothing_to_delete] at a bucket without image files, images only. *)
Lemma nothing_to_delete_witness :
  result (clean_bucket cleaner 5 true false no_images_world) = Some ()
  ∧ prompts (events (clean_bucket cleaner 5 true false no_images_world)) = []
  ∧ delete_calls (events (clean_bucket cleaner 5 true false no_images_world)) = []
  ∧ sleeps (events (clean_bucket cleaner 5 true false no_images_world)) = 0
  ∧ last (printed (events (clean_bucket cleaner 5 true false no_images_world)))
    = Some MsgNoMatching.
Proof.
  apply (nothing_to_delete cleaner 5 true false no_images_world text_objects).
  - vm_compute. reflexivity.
  - right. split; vm_compute; reflexivity.
Defined.

(** [filter_images_keeps_input] at a store with one list of three
    objects. *)
Lemma filter_images_keeps_input_witness :
  ∃ image_objects h' out,
    Store.filter_images 4 7 mixed_store = Some (image_objects, h')
    ∧ h' !! 7 = Some mixed_objects
    ∧ mixed_store !! image_objects = None
    ∧ (∀ r, r ≠ image_objects → h' !! r = mixed_store !! r)
    ∧ h' !! image_objects = Some out
    ∧ out = image_objects_of mixed_objects
    ∧ out `sublist_of` mixed_objects
    ∧ ∀ obj, obj ∈ out → obj ∈ mixed_objects.
Proof.
  apply (filter_images_keeps_input mixed_store 7 mixed_objects 4).
  - vm_compute. reflexivity.
  - vm_compute. lia.
Defined.

(** What [filter_images] keeps of the sample list. *)
Example filter_images_mixed :
  map Key (image_objects_of mixed_objects) = ["b.JpG"; "c.png"].
Proof. vm_compute. reflexivity. Qed.




(** ** The shape of a run *)

Lemma deletion_no_list_calls t : Forall is_deletion_event t → list_calls t = [].
Proof. apply omap_none_on. by intros []. Qed.

Lemma deletion_no_prompts t : Forall is_deletion_event t → prompts t = [].
Proof. apply omap_none_on. by intros []. Qed.

Lemma quiet_no_requests t : Forall is_print_or_list t → requested_keys t = [].
Proof. intros Hquiet. unfold requested_keys. by rewrite prints_no_delete_calls. Qed.

Section Shape.
Context {W : Type} `{!S3Client W, !Console W}.
Variable self : R2BucketCleaner.

Lemma turn_events_deletion objs i r :
  Forall is_deletion_event (turn_events self objs i r).
Proof.
  unfold turn_events. rewrite !Forall_app. repeat split.
  - by repeat constructor.
  - eapply Forall_impl; [apply batch_report_prints|]. by intros [].
  - destruct (batch_succeeded r); by repeat constructor.
  - case_match; by repeat constructor.
Qed.

Lemma delete_phase_only objs (w : W) :
  Forall is_deletion_event (events (delete_phase self objs w)).
Proof.
  destruct (delete_phase_run self objs w) as (answers & _ & _ & _ & ->).
  constructor; [done|]. rewrite Forall_app. split; [|by repeat constructor].
  apply Forall_concat, Forall_forall. intros t Ht.
  apply elem_of_lookup_zip_with in Ht as (k & i & r & -> & _ & _).
  apply turn_events_deletion.
Qed.

Lemma delete_phase_requests objs (w : W) :
  map fst (delete_calls (events (delete_phase self objs w)))
  = map (request_for self) (batches objs).
Proof.
  destruct (delete_phase_run self objs w) as (answers & Hlen & _ & -> & _).
  change (map fst ?l) with (fst <$> l). rewrite fst_zip; [done|].
  rewrite length_map. lia.
Qed.

Lemma sleeps_turn objs i r :
  sleeps (turn_events self objs i r)
  = if i + batch_size <? length objs then 1 else 0.
Proof.
  unfold turn_events. rewrite !sleeps_app.
  assert (sleeps (batch_report r) = 0) as ->.
  { apply prints_no_sleeps. eapply Forall_impl; [apply batch_report_prints|].
    apply is_print_weaken. }
  destruct (batch_succeeded r); by case_match.
Qed.

Lemma sleeps_turns objs n answers :
  length answers = n →
  sleeps (concat (zip_with (turn_events self objs)
                           (map (λ k, k * batch_size) (seq 0 n)) answers))
  = length (List.filter (λ k, k * batch_size + batch_size <? length objs)
                        (seq 0 n)).
Proof.
  revert answers. induction n as [|n IH]; intros answers Hlen.
  { by destruct answers. }
  destruct (decide (answers = [])) as [->|Hne]; [done|].
  destruct (exists_last Hne) as (answers' & r & ->).
  rewrite length_app in Hlen. cbn in Hlen.
  rewrite seq_S, map_app, List.filter_app, length_app. cbn [map List.filter].
  rewrite zip_with_app by (rewrite length_map, length_seq; lia).
  rewrite concat_app, sleeps_app, IH by lia. f_equal.
  cbn [zip_with concat]. rewrite app_nil_r, sleeps_turn. cbn [plus].
  by case_match.
Qed.

Lemma count_full_batches n b :
  0 < b →
  length (List.filter (λ k, k * b + b <? n) (seq 0 (ceil_div n b)))
  = ceil_div n b - 1.
Proof.
  intros Hb. destruct (ceil_div_least n b Hb) as [Hup Hleast].
  assert (∀ m, m ≤ ceil_div n b →
            length (List.filter (λ k, k * b + b <? n) (seq 0 m))
            = m `min` (ceil_div n b - 1)) as Hcount.
  { induction m as [|m IH]; intros Hm; [done|].
    rewrite seq_S, List.filter_app, length_app, IH by lia. cbn [plus List.filter].
    destruct (Nat.ltb_spec (m * b + b) n) as [Hlt|Hge]; cbn [length].
    - assert (¬ ceil_div n b ≤ m + 1); [|lia].
      intros Hle. assert (ceil_div n b * b ≤ (m + 1) * b) by nia. lia.
    - specialize (Hleast (m + 1)). lia. }
  rewrite Hcount by done. lia.
Qed.

Lemma delete_phase_sleeps objs (w : W) :
  sleeps (events (delete_phase self objs w)) = length (batches objs) - 1.
Proof.
  destruct (delete_phase_run self objs w) as (answers & Hlen & _ & _ & ->).
  rewrite batches_length in *.
  match goal with
  | |- sleeps (?e :: ?t) = _ => change (sleeps (e :: t)) with (sleeps t)
  end.
  rewrite sleeps_app, range_closed by apply batch_size_pos.
  rewrite sleeps_turns, count_full_batches by (done || apply batch_size_pos).
  cbn. lia.
Qed.

Lemma list_all_objects_listed budget (w : W) all_objects :
  result (list_all_objects self budget w) = Some all_objects →
  all_objects ≠ [] →
  all_objects = listed (events (list_all_objects self budget w)).
Proof.
  intros Hres Hne. unfold listed. rewrite list_all_objects_calls.
  rewrite list_all_objects_run in Hres. cbn [result] in Hres.
  pose proof (list_loop_run self budget [] None w) as [_ Hrun]. cbn zeta in Hrun.
  revert Hres Hrun.
  destruct (result (list_loop self budget [] None w)) as [[e|objects]|];
    intros Hres Hrun; [congruence| |congruence].
  destruct Hrun as (Hlisted & _). rewrite app_nil_l in Hlisted. congruence.
Qed.

(** A run of [clean_bucket] consists of lines and listing requests
    only, or it is a non-dry run that goes on to ask for the
    confirmation about the objects selected from what it listed. *)
Lemma clean_bucket_shape budget images_only dry_run (w : W) :
  let run := clean_bucket self budget images_only dry_run w in
  let listing := list_all_objects self budget w in
  Forall is_print_or_list (events run)
  ∨ dry_run = false
    ∧ ∃ shown,
        Forall is_print_or_list shown
        ∧ list_calls shown = list_calls (events listing)
        ∧ result listing = Some (listed (events listing))
        ∧ selected images_only (listed (events listing)) ≠ []
        ∧ let rest := confirm_and_delete self
                        (selected images_only (listed (events listing)))
                        (world listing) in
          run = mkOutcome (result rest) (world rest) (shown ++ events rest).
Proof.
  intros run listing. subst run. rewrite clean_bucket_run. cbn zeta. fold listing.
  pose proof (before_quiet self budget images_only dry_run w) as Hbefore.
  fold listing in Hbefore.
  destruct (result listing) as [all_objects|] eqn:Hres; [|by left].
  destruct all_objects as [|obj all_objects].
  { left. cbn [events]. rewrite Forall_app. split; [done|by repeat constructor]. }
  set (all := obj :: all_objects) in *.
  destruct (selected images_only all) as [|obj' objects] eqn:Hsel.
  { left. cbn [events]. rewrite Forall_app. split; [done|].
    rewrite Forall_app. split; [apply selection_quiet|by repeat constructor]. }
  rewrite <- Hsel.
  pose proof (shown_quiet self budget images_only dry_run all
                (selected images_only all) w (world listing)) as Hshown.
  fold listing in Hshown.
  destruct dry_run.
  { left. cbn [events]. rewrite Forall_app. split; [done|by repeat constructor]. }
  right. split; [done|]. eexists. split; [exact Hshown|].
  assert (all = listed (events listing)) as <-.
  { by apply list_all_objects_listed. }
  split.
  { rewrite !list_calls_app.
    assert (list_calls (header self images_only false) = []) as -> by done.
    assert (list_calls (selection_events images_only all) = []) as ->.
    { by destruct images_only. }
    rewrite (prints_no_list_calls (events (preview _ _))).
    - by rewrite !app_nil_r.
    - apply preview_only. }
  split; [done|]. split; [by rewrite Hsel|done].
Qed.

(** What follows the listing and the preview in such a run: the
    warning, the prompt, and the deletion loop or the cancellation. *)
Lemma confirm_and_delete_events objects (w : W) :
  let answer := (input confirmation_prompt w).1 in
  let w' := (input confirmation_prompt w).2 in
  events (confirm_and_delete self objects w)
  = [EvPrint (MsgWarning (length objects)); EvInput confirmation_prompt answer]
    ++ (if bool_decide (Py.strip answer = "DELETE")
        then events (delete_phase self objects w')
        else [EvPrint MsgCancelled]).
Proof.
  cbn zeta. rewrite confirm_and_delete_run. cbn zeta. by case_bool_decide.
Qed.

Lemma delete_phase_requested objs (w : W) :
  requested_keys (events (delete_phase self objs w)) = map Key objs.
Proof.
  unfold requested_keys.
  rewrite <- (map_map fst Objects), delete_phase_requests, map_map.
  cbn [request_for Objects]. rewrite <- (map_map id (map Key)), map_id.
  by rewrite <- concat_map, batches_concat.
Qed.

(** A run of [clean_bucket] that sends a delete request is a non-dry
    run in which the operator confirmed, and from the prompt on it is
    the deletion loop over the objects selected from the listing. *)
Lemma clean_bucket_deleting budget images_only dry_run (w : W) :
  let t := events (clean_bucket self budget images_only dry_run w) in
  delete_calls t ≠ [] →
  dry_run = false
  ∧ ∃ shown answer w',
      Forall is_print_or_list shown
      ∧ Py.strip answer = "DELETE"
      ∧ result (list_all_objects self budget w) = Some (listed t)
      ∧ selected images_only (listed t) ≠ []
      ∧ t = (shown ++ [EvPrint (MsgWarning
                                  (length (selected images_only (listed t))))])
            ++ EvInput confirmation_prompt answer
               :: events (delete_phase self (selected images_only (listed t)) w')
      ∧ delete_calls t
        = delete_calls
            (events (delete_phase self (selected images_only (listed t)) w')).
Proof.
  intros t Hcalls. subst t.
  destruct (clean_bucket_shape budget images_only dry_run w)
    as [Hquiet|(-> & shown & Hshown & Hlist & Hres & Hsel & Hrun)].
  { by rewrite prints_no_delete_calls in Hcalls. }
  split; [done|]. cbn zeta in Hrun. revert Hcalls. rewrite Hrun. cbn [events].
  rewrite confirm_and_delete_events. cbn zeta.
  set (answer := (input confirmation_prompt _).1).
  set (w' := (input confirmation_prompt _).2).
  set (objects := selected images_only _) in *.
  rewrite !delete_calls_app, (prints_no_delete_calls shown) by done.
  case_bool_decide as Hanswer; [intros _|done].
  assert (listed (shown ++ [EvPrint (MsgWarning (length objects));
                            EvInput confirmation_prompt answer]
                  ++ events (delete_phase self objects w'))
          = listed shown) as Hlisted.
  { unfold listed. rewrite !list_calls_app.
    rewrite (deletion_no_list_calls (events _)) by apply delete_phase_only.
    by rewrite !app_nil_r. }
  assert (listed shown
          = listed (events (list_all_objects self budget w))) as Hsame.
  { unfold listed. by rewrite Hlist. }
  exists shown, answer, w'. rewrite Hlisted, Hsame. fold objects.
  repeat split; try done;
    first [by rewrite <- app_assoc
          |by rewrite !delete_calls_app, (prints_no_delete_calls shown)].
Qed.

End Shape.

(** ** Whole runs of [clean_bucket] *)


Section WholeRuns.
Context {W : Type} `{!S3Client W, !Console W}.
Variable self : R2BucketCleaner.



(** X1. In every run of [clean_bucket], whatever the flags and the
    world: if a delete request is sent, then the run is not a dry run
    and it splits at one prompt, answered by DELETE up to surrounding
    white space; before that prompt the run only prints and lists, and
    after it there are only lines, delete requests and pauses (no
    second prompt, no further listing request). *)
Theorem deletes_only_after_confirmation budget images_only dry_run (w : W) :
  let t := events (clean_bucket self budget images_only dry_run w) in
  delete_calls t ≠ [] →
  dry_run = false
  ∧ ∃ before answer after,
      t = before ++ EvInput confirmation_prompt answer :: after
      ∧ Py.strip answer = "DELETE"
      ∧ Forall is_print_or_list before
      ∧ Forall is_deletion_event after.
Proof.
  intros t Hcalls.
  destruct (clean_bucket_deleting self budget images_only dry_run w Hcalls)
    as (-> & shown & answer & w' & Hshown & Hanswer & _ & _ & Ht & _).
  split; [done|]. eexists _, answer, _. split; [exact Ht|].
  split; [done|]. split; [|apply delete_phase_only].
  rewrite Forall_app. split; [done|by repeat constructor].
Qed.


(** X3. Every delete request of every run of [clean_bucket] names
    the bucket of the cleaner, is not quiet, and holds at least one and
    at most 1000 keys; so [delete_objects_batch] is never called there
    with an empty batch. *)
Theorem delete_requests_within_limit budget images_only dry_run (w : W) :
  Forall (λ call, DelBucket call.1 = bucket_name self
                  ∧ Quiet call.1 = false
                  ∧ 0 < length (Objects call.1) ≤ 1000)
         (delete_calls (events (clean_bucket self budget images_only dry_run w))).
Proof.
  destruct (decide (delete_calls
                      (events (clean_bucket self budget images_only dry_run w))
                    = [])) as [->|Hcalls]; [done|].
  destruct (clean_bucket_deleting self budget images_only dry_run w Hcalls)
    as (_ & shown & answer & w' & _ & _ & _ & _ & _ & ->).
  apply (Forall_fmap fst (λ q, DelBucket q = bucket_name self ∧ Quiet q = false
                               ∧ 0 < length (Objects q) ≤ 1000)).
  change (fst <$> ?l) with (map fst l). rewrite delete_phase_requests.
  apply List.Forall_map. eapply Forall_impl; [apply batches_bounded|].
  intros batch [Hpos Hmax]. cbn. rewrite length_map.
  change 1000 with batch_size. done.
Qed.

(** X4. In every run of [clean_bucket] the number of pauses is the
    number of delete requests less one (none when no request is sent):
    the loop pauses between two batches and not after the last one. *)
Theorem one_pause_between_requests budget images_only dry_run (w : W) :
  let t := events (clean_bucket self budget images_only dry_run w) in
  sleeps t = length (delete_calls t) - 1.
Proof.
  cbn zeta.
  destruct (clean_bucket_shape self budget images_only dry_run w)
    as [Hquiet|(-> & shown & Hshown & _ & _ & _ & Hrun)].
  { by rewrite prints_no_sleeps, prints_no_delete_calls. }
  cbn zeta in Hrun. rewrite Hrun. cbn [events].
  rewrite confirm_and_delete_events. cbn zeta.
  rewrite !sleeps_app, !delete_calls_app, prints_no_sleeps,
    (prints_no_delete_calls shown) by done.
  case_bool_decide; [|done].
  cbn [app]. 
  change (sleeps (EvPrint ?m :: EvInput ?p ?a :: ?t)) with (sleeps t).
  change (delete_calls (EvPrint ?m :: EvInput ?p ?a :: ?t)) with (delete_calls t).
  rewrite delete_phase_sleeps, length_app.
  rewrite <- (length_map fst (delete_calls (events _))), delete_phase_requests.
  by rewrite length_map.
Qed.


End WholeRuns.

(** ** Runs of [main] *)

Section MainProps.
Context {W : Type} `{!S3Client W, !Console W}.


(** X7. With [--dry-run], whatever the other flags, the
    configuration, the store and the operator, a run of [main] sends no
    delete request, asks for no confirmation and does not pause. *)
Theorem main_dry_run_is_harmless config args budget (w : W) :
  args_dry_run args = true →
  let t := cleaning_events (main config args budget w) in
  delete_calls t = [] ∧ prompts t = [] ∧ sleeps t = 0.
Proof.
  intros Hdry t. subst t. unfold main. rewrite Hdry.
  destruct (has_placeholder config); [done|]. cbn [cleaning_events cleaning from_option].
  assert (Forall is_print_or_list
            (events (clean_bucket (new_cleaner config) budget
                                  (args_images_only args) true w))) as Hquiet.
  { eapply Forall_impl; [apply clean_bucket_dry_run_preview|].
    apply is_preview_weaken. }
  by rewrite prints_no_delete_calls, prints_no_prompts, prints_no_sleeps.
Qed.


(** X9. Without [--delete-all], every key that a run of [main] asks
    the store to delete is the key of an image, and the keys asked for
    are, in their order, keys that the listing of this run returned. *)
Theorem main_spares_other_files config args budget (w : W) :
  args_delete_all args = false →
  let t := cleaning_events (main config args budget w) in
  Forall (λ key, is_image_key key = true) (requested_keys t)
  ∧ requested_keys t `sublist_of` map Key (listed t).
Proof.
  intros Hall t.
  assert (requested_keys t = []
          ∨ requested_keys t = map Key (image_objects_of (listed t))) as Hkeys.
  { subst t. unfold main. rewrite Hall.
    destruct (has_placeholder config); [by left|].
    destruct (args_dry_run args), (args_delete_images args);
      cbn [cleaning_events cleaning from_option]; try by left.
    - left. apply quiet_no_requests.
      eapply Forall_impl; [apply clean_bucket_dry_run_preview|].
      apply is_preview_weaken.
    - left. apply quiet_no_requests.
      eapply Forall_impl; [apply clean_bucket_dry_run_preview|].
      apply is_preview_weaken.
    - match goal with
      | |- context [requested_keys ?t] =>
          destruct (decide (delete_calls t = [])) as [Hnone|Hcalls]
      end.
      { left. unfold requested_keys. by rewrite Hnone. }
      right.
      destruct (clean_bucket_deleting _ _ _ _ _ Hcalls)
        as (_ & shown & answer & w' & _ & _ & _ & _ & _ & Hsame).
      unfold requested_keys. rewrite Hsame. apply delete_phase_requested. }
  destruct Hkeys as [->| ->].
  { split; [done|apply sublist_nil_l]. }
  rewrite image_objects_filter. split.
  - apply List.Forall_map, Forall_forall. intros obj Hobj.
    apply list_elem_of_In, filter_In in Hobj. tauto.
  - change (map Key ?l) with (Key <$> l). apply (fmap_sublist Key), filter_sublist.
Qed.

End MainProps.

(** ** The lines of the preview *)

Section Preview.
Context {W : Type} `{!S3Client W, !Console W}.






End Preview.

(** ** The budget of the listing loop *)

Section Budget.
Context {W : Type} `{!S3Client W, !Console W}.
Variable self : R2BucketCleaner.

Lemma list_loop_budget budget budget' objects continuation_token (w : W) :
  budget ≤ budget' →
  let run := list_loop self budget objects continuation_token w in
  let run' := list_loop self budget' objects continuation_token w in
  events run `prefix_of` events run' ∧ (is_Some (result run) → run' = run).
Proof.
  revert budget' objects continuation_token w.
  induction budget as [|budget IH]; intros budget' objects token w Hle.
  { cbn zeta. split; [apply prefix_nil|]. by intros [? [=]]. }
  destruct budget' as [|budget']; [lia|]. cbn zeta.
  rewrite !list_loop_step. cbn zeta.
  destruct (list_objects_v2 (list_params self token) w).1 as [e|response];
    [done|].
  destruct (is_truncated response); [|done].
  destruct (IH budget' (objects ++ entries response)
               (NextContinuationToken response)
               (list_objects_v2 (list_params self token) w).2) as [Hpre Heq];
    [lia|].
  cbn [events result]. split.
  - apply prefix_cons, prefix_app, Hpre.
  - intros Hsome. by rewrite (Heq Hsome).
Qed.

Lemma list_all_objects_budget budget budget' (w : W) :
  budget ≤ budget' →
  let run := list_all_objects self budget w in
  let run' := list_all_objects self budget' w in
  events run `prefix_of` events run' ∧ (is_Some (result run) → run' = run).
Proof.
  intros Hle. cbn zeta. rewrite !list_all_objects_run. cbn zeta.
  destruct (list_loop_budget budget budget' [] None w Hle) as [Hpre Heq].
  cbn zeta in Hpre, Heq. cbn [events result].
  destruct (result (list_loop self budget [] None w)) as [r|] eqn:Hres.
  - rewrite (Heq (ltac:(by eexists))), Hres. done.
  - split; [|by intros [? [=]]].
    rewrite app_nil_r. apply prefix_cons.
    etrans; [exact Hpre|]. by apply prefix_app_r.
Qed.

(** X10. The budget of the listing loop only cuts a run short.  With
    a larger budget the events of [clean_bucket] extend those with the
    smaller one, and a run that returned within a budget is the same
    run, with the same result, world and events, under every larger
    budget: it is the run of the loop without a budget. *)
Theorem budget_only_cuts_short budget budget' images_only dry_run (w : W) :
  budget ≤ budget' →
  let run := clean_bucket self budget images_only dry_run w in
  let run' := clean_bucket self budget' images_only dry_run w in
  events run `prefix_of` events run' ∧ (is_Some (result run) → run' = run).
Proof.
  intros Hle. cbn zeta.
  destruct (list_all_objects_budget budget budget' w Hle) as [Hpre Heq].
  cbn zeta in Hpre, Heq.
  destruct (result (list_all_objects self budget w)) as [all|] eqn:Hres.
  - rewrite (clean_bucket_run self budget'), (clean_bucket_run self budget).
    cbn zeta. rewrite (Heq (ltac:(by eexists))). done.
  - rewrite (clean_bucket_run self budget). cbn zeta. rewrite Hres.
    cbn [events result]. split; [|by intros [? [=]]].
    rewrite (clean_bucket_run self budget'). cbn zeta.
    set (before' := header self images_only dry_run
                    ++ events (list_all_objects self budget' w)).
    assert ((header self images_only dry_run
             ++ events (list_all_objects self budget w)) `prefix_of` before')
      as Hbefore by apply prefix_app, Hpre.
    destruct (result (list_all_objects self budget' w)) as [[|obj all]|];
      cbn [events]; [by apply prefix_app_r|..|done].
    destruct (selected images_only (obj :: all)); cbn [events];
      [by apply prefix_app_r|].
    destruct dry_run; cbn [events]; rewrite <- !app_assoc; by apply prefix_app_r.
Qed.

End Budget.

(** ** Image keys *)

Lemma sapp_assoc s t u : (s +:+ t) +:+ u = s +:+ (t +:+ u).
Proof. induction s as [|c s IH]; [done|]. by rewrite !app_cons, IH. Qed.

Lemma len_lower s : Py.len (Py.lower s) = Py.len s.
Proof. induction s as [|c s IH]; [done|]. cbn. by rewrite IH. Qed.

Lemma lower_char_twice c : Py.lower_char (Py.lower_char c) = Py.lower_char c.
Proof. by destruct c as [[] [] [] [] [] [] [] []]. Qed.

Lemma lower_twice s : Py.lower (Py.lower s) = Py.lower s.
Proof.
  induction s as [|c s IH]; [done|]. cbn [Py.lower].
  by rewrite lower_char_twice, IH.
Qed.

(** The last character of a non-empty string. *)
Lemma snoc_inj s t c d : s +:+ String c "" = t +:+ String d "" → c = d.
Proof.
  revert t. induction s as [|a s IH]; intros [|b t]; rewrite ?app_cons; cbn.
  - by intros [= ->].
  - intros [= _ H]. by destruct t.
  - intros [= _ H]. by destruct s.
  - intros [= _ H]. by apply (IH t).
Qed.

Lemma snoc_split s : s ≠ "" → ∃ s' c, s = s' +:+ String c "".
Proof.
  induction s as [|a s IH]; [done|]. intros _.
  destruct s as [|b s]; [by exists "", a|].
  destruct IH as (s' & c & Hs); [done|]. exists (String a s'), c.
  by rewrite app_cons, <- Hs.
Qed.

Lemma extensions_long : Forall (λ ext, 4 ≤ Py.len ext) image_extensions.
Proof. repeat constructor. Qed.

Lemma extensions_short : Forall (λ ext, Py.len ext ≤ 5) image_extensions.
Proof. repeat constructor. Qed.

Lemma extensions_no_slash :
  Forall (λ ext, ext ≠ "" ∧ Py.endswith ext "/" = false) image_extensions.
Proof. repeat constructor; done. Qed.

Lemma from_app_le n q s :
  n ≤ Py.len q → Py.from n (q +:+ s) = Py.from n q +:+ s.
Proof.
  revert q. induction n as [|n IH]; intros q Hn; [done|].
  destruct q as [|c q]; cbn in Hn; [lia|]. rewrite app_cons. cbn.
  apply IH. lia.
Qed.

Lemma is_image_key_prefix folder key :
  is_image_key key = true → is_image_key (folder +:+ key) = true.
Proof.
  rewrite !is_image_key_spec. intros (ext & Hext & p & s & -> & Hs).
  exists ext. split; [done|]. exists (folder +:+ p), s.
  by rewrite sapp_assoc.
Qed.

(** X11. Whether [filter_images] keeps a key depends on the last five
    characters of the key only ([key[-5:]]), and not on the case of its
    letters; so a key that is kept stays kept under every folder
    prefix. *)
Theorem image_key_reads_the_suffix key :
  is_image_key key = is_image_key (Py.from (Py.len key - 5) key)
  ∧ is_image_key (Py.lower key) = is_image_key key
  ∧ ∀ folder, is_image_key key = true → is_image_key (folder +:+ key) = true.
Proof.
  split; [|split].
  - apply eq_true_iff_eq. split.
    + rewrite !is_image_key_spec. intros (ext & Hext & q & s & -> & Hs).
      exists ext. split; [done|].
      assert (Py.len s ≤ 5) as Hlen.
      { pose proof extensions_short as Hshort. rewrite Forall_forall in Hshort.
        rewrite <- (len_lower s), Hs, len_lower. by apply Hshort. }
      rewrite len_app, from_app_le by lia. by eexists _, s.
    + intros Himage.
      destruct (from_split (Py.len key - 5) key) as [p Hp].
      rewrite Hp. by apply is_image_key_prefix.
  - unfold is_image_key. by rewrite lower_twice.
  - intros folder. apply is_image_key_prefix.
Qed.

(** X12. [filter_images] never keeps a key of fewer than four
    characters, nor a key that ends with a slash (the folder
    markers). *)
Theorem never_image_keys key :
  (Py.len key < 4 → is_image_key key = false)
  ∧ is_image_key (key +:+ "/") = false.
Proof.
  split.
  - intros Hshort. apply not_true_is_false. rewrite is_image_key_spec.
    intros (ext & Hext & q & s & -> & Hs).
    pose proof extensions_long as Hlong. rewrite Forall_forall in Hlong.
    specialize (Hlong ext Hext). cbn beta in Hlong.
    rewrite len_app, <- (len_lower s), Hs, len_lower in Hshort. lia.
  - apply not_true_is_false. unfold is_image_key. rewrite existsb_exists.
    intros (ext & Hext & Hends). apply list_elem_of_In in Hext.
    pose proof extensions_no_slash as Hno. rewrite Forall_forall in Hno.
    destruct (Hno ext Hext) as [Hne Hslash].
    apply endswith_spec in Hends as [p Hp]. rewrite lower_app in Hp.
    change (Py.lower "/") with "/" in Hp.
    destruct (snoc_split ext Hne) as (stem & c & ->).
    rewrite <- sapp_assoc in Hp. apply snoc_inj in Hp as <-.
    assert (Py.endswith (stem +:+ "/") "/" = true) as Hyes.
    { apply endswith_spec. by exists stem. }
    congruence.
Qed.

(** ** [filter_images] and concatenation *)

(** X13. [filter_images] and concatenation: the images of the
    concatenation of pages are the images of each page, concatenated;
    the result is never longer than the argument; and it is the argument
    itself exactly when every key of the argument is an image key. *)
Theorem filter_images_by_page (pages_entries : list (list Obj)) (objects : list Obj) :
  image_objects_of (concat pages_entries)
  = concat (map image_objects_of pages_entries)
  ∧ length (image_objects_of objects) ≤ length objects
  ∧ (image_objects_of objects = objects
     ↔ Forall (λ obj, is_image_key (Key obj) = true) objects).
Proof.
  split; [|split].
  - induction pages_entries as [|entries rest IH]; [done|].
    cbn [concat map]. rewrite <- IH, !image_objects_filter.
    apply List.filter_app.
  - rewrite image_objects_filter. apply List.filter_length_le.
  - rewrite image_objects_filter. split.
    + intros Hsame. rewrite <- Hsame. apply Forall_forall. intros obj Hobj.
      apply list_elem_of_In, filter_In in Hobj. tauto.
    + induction 1 as [|obj objects Hobj _ IH]; [done|].
      cbn [List.filter]. by rewrite Hobj, IH.
Qed.

(** ** Empty batches and a listing without end *)

Section Edges.
Context {W : Type} `{!S3Client W, !Console W}.
Variable self : R2BucketCleaner.

(** X14. [delete_objects_batch] on an empty list returns [True]
    without contacting the store and without printing.  On a non-empty
    list it sends one delete request, for the keys of the list in their
    order, and returns [True] exactly when the request did not raise
    and the response lists no error.  It never lists, asks or
    pauses. *)
Theorem delete_objects_batch_outcome objects (w : W) :
  let run := delete_objects_batch self objects w in
  (objects = [] → run = mkOutcome (Some true) w [])
  ∧ (objects ≠ [] →
     ∃ r, delete_calls (events run) = [(request_for self objects, r)]
          ∧ (r, world run) = delete_objects (request_for self objects) w
          ∧ result run = Some (batch_succeeded r))
  ∧ Forall is_deletion_event (events run)
  ∧ sleeps (events run) = 0.
Proof.
  cbn zeta. split; [by intros ->|].
  destruct (decide (objects = [])) as [->|Hne].
  { split; [done|]. by split. }
  rewrite delete_objects_batch_run by done. cbn zeta. cbn [events result world].
  assert (Forall is_print_or_list
            (batch_report (delete_objects (request_for self objects) w).1))
    as Hreport.
  { eapply Forall_impl; [apply batch_report_prints|]. apply is_print_weaken. }
  split; [|split].
  - intros _. eexists. split; [|split; [|done]].
    + change (delete_calls (EvDelete ?q ?r :: ?t)) with ((q, r) :: delete_calls t).
      by rewrite prints_no_delete_calls.
    + by destruct (delete_objects (request_for self objects) w).
  - constructor; [done|]. eapply Forall_impl; [apply batch_report_prints|].
    by intros [].
  - change (sleeps (EvDelete ?q ?r :: ?t)) with (sleeps t).
    by apply prints_no_sleeps.
Qed.

Lemma list_loop_endless budget objects continuation_token (w : W) :
  (∀ params (w : W), ∃ response,
      (list_objects_v2 params w).1 = inr response
      ∧ is_truncated response = true) →
  let run := list_loop self budget objects continuation_token w in
  result run = None ∧ length (list_calls (events run)) = budget.
Proof.
  intros Hendless. revert objects continuation_token w.
  induction budget as [|budget IH]; intros objects token w; [done|].
  cbn zeta. rewrite list_loop_step. cbn zeta.
  destruct (Hendless (list_params self token) w) as (response & -> & ->).
  cbn [result events]. rewrite list_calls_turn by apply found_prints.
  destruct (IH (objects ++ entries response) (NextContinuationToken response)
               (list_objects_v2 (list_params self token) w).2) as [-> Hlen].
  split; [done|]. cbn [length]. by rewrite Hlen.
Qed.

(** X15. The listing loop has no bound of its own.  Against a store
    that answers every listing request with a page marked truncated,
    [clean_bucket] does not return under any budget: it uses the whole
    budget on listing requests, and it sends no delete request and asks
    nothing. *)
Theorem endless_listing_never_returns budget images_only dry_run (w : W) :
  (∀ params (w : W), ∃ response,
      (list_objects_v2 params w).1 = inr response
      ∧ is_truncated response = true) →
  let run := clean_bucket self budget images_only dry_run w in
  result run = None
  ∧ length (list_calls (events run)) = budget
  ∧ delete_calls (events run) = []
  ∧ prompts (events run) = [].
Proof.
  intros Hendless. cbn zeta.
  destruct (list_loop_endless budget [] None w Hendless) as [Hnone Hlen].
  cbn zeta in Hnone, Hlen.
  pose proof (before_quiet self budget images_only dry_run w) as Hquiet.
  rewrite clean_bucket_run. cbn zeta.
  rewrite list_all_objects_run in *. cbn zeta in *. cbn [result events] in *.
  rewrite Hnone in *. cbn [result events].
  split; [done|]. split; [|split].
  - rewrite list_calls_app. change (list_calls (header _ _ _)) with
      (@nil (ListParams * (ClientError + ListResponse))).
    change (list_calls (EvPrint ?m :: ?t)) with (list_calls t).
    by rewrite app_nil_l, app_nil_r.
  - by apply prints_no_delete_calls.
  - by apply prints_no_prompts.
Qed.

End Edges.

(** ** The preview and the deletion *)


Ltac kinds :=
  repeat match goal with
    | |- only _ (mret _) => apply only_ret
    | |- only _ out_of_budget => apply only_out_of_budget
    | |- only _ (print _) => apply only_print; exact I
    | |- only _ sleep => apply only_sleep; exact I
    | |- only _ (call_list_objects_v2 _) =>
        apply only_call_list_objects_v2; intros; exact I
    | |- only _ (call_delete_objects _) =>
        apply only_call_delete_objects; intros; exact I
    | |- only _ (for_each _ _) => apply only_for_each; intros ?
    | |- only _ (for_fold _ _ _) => apply only_for_fold; intros ? ?
    | |- only _ (_ ≫= _) => apply only_bind; [|intros ?]
    | |- only _ (match ?x with _ => _ end) => destruct x
    end.

Lemma previewed_app t1 t2 : previewed (t1 ++ t2) = previewed t1 ++ previewed t2.
Proof. unfold previewed. by rewrite printed_app, omap_app. Qed.

Lemma announced_more_app t1 t2 :
  announced_more (t1 ++ t2) = announced_more t1 + announced_more t2.
Proof.
  unfold announced_more. rewrite printed_app, omap_app.
  induction (omap _ (printed t1)) as [|n l IH]; [done|]. cbn in *. lia.
Qed.

Lemma outside_preview_none t :
  Forall outside_preview t → previewed t = [] ∧ announced_more t = 0.
Proof.
  induction 1 as [|e t He _ [IHp IHa]]; [done|].
  change (e :: t) with ([e] ++ t). rewrite previewed_app, announced_more_app.
  rewrite IHp, IHa. by destruct e as [[]| | | |].
Qed.

Section Predicts.
Context {W : Type} `{!S3Client W, !Console W}.
Variable self : R2BucketCleaner.

Lemma list_all_objects_outside budget :
  only outside_preview (list_all_objects self budget).
Proof.
  assert (∀ objects token,
            only outside_preview (list_loop self budget objects token)) as Hloop.
  { induction budget as [|budget' IH]; intros objects token; cbn [list_loop].
    - apply only_out_of_budget.
    - kinds. apply IH. }
  unfold list_all_objects. kinds. apply Hloop.
Qed.

Lemma delete_phase_outside objects :
  only outside_preview (delete_phase self objects).
Proof.
  unfold delete_phase. kinds. unfold delete_turn, delete_objects_batch. kinds.
Qed.

Lemma confirm_and_delete_outside objects (w : W) :
  Forall outside_preview (events (confirm_and_delete self objects w)).
Proof.
  rewrite confirm_and_delete_events. cbn zeta.
  apply Forall_app. split; [by repeat constructor|].
  case_bool_decide; [apply delete_phase_outside|by repeat constructor].
Qed.

Lemma confirm_and_delete_no_list_calls objects (w : W) :
  list_calls (events (confirm_and_delete self objects w)) = [].
Proof.
  rewrite confirm_and_delete_events. cbn zeta. rewrite list_calls_app.
  case_bool_decide; [|done].
  by rewrite (deletion_no_list_calls (events _)) by apply delete_phase_only.
Qed.

(** What a run of [clean_bucket] shows in its preview is determined by
    the listing and the selection, not by the dry-run flag. *)
Lemma clean_bucket_previewed budget images_only dry_run (w : W) :
  let t := events (clean_bucket self budget images_only dry_run w) in
  let listing := list_all_objects self budget w in
  let shown := match result listing with
               | Some all_objects =>
                   match all_objects, selected images_only all_objects with
                   | _ :: _, (_ :: _) as objects =>
                       events (preview objects (world listing))
                   | _, _ => []
                   end
               | None => []
               end in
  list_calls t = list_calls (events listing)
  ∧ previewed t = previewed shown
  ∧ announced_more t = announced_more shown.
Proof.
  cbn zeta. rewrite clean_bucket_run. cbn zeta.
  set (listing := list_all_objects self budget w).
  pose proof (list_all_objects_outside budget w) as Hlisting. fold listing in Hlisting.
  destruct (outside_preview_none _ Hlisting) as [Hp Ha].
  assert (∀ t, list_calls (header self images_only dry_run ++ t) = list_calls t)
    as Hheader_calls by done.
  assert (∀ t, previewed (header self images_only dry_run ++ t) = previewed t)
    as Hheader_shown by done.
  assert (∀ t, announced_more (header self images_only dry_run ++ t)
               = announced_more t) as Hheader_more by done.
  assert (∀ all t, list_calls (selection_events images_only all ++ t)
                   = list_calls t) as Hsel_calls by (by destruct images_only).
  assert (∀ all t, previewed (selection_events images_only all ++ t)
                   = previewed t) as Hsel_shown by (by destruct images_only).
  assert (∀ all t, announced_more (selection_events images_only all ++ t)
                   = announced_more t) as Hsel_more by (by destruct images_only).
  destruct (result listing) as [[|obj all]|]; cbn [events].
  - rewrite <- app_assoc, Hheader_calls, Hheader_shown, Hheader_more.
    rewrite list_calls_app, previewed_app, announced_more_app, Hp, Ha.
    by rewrite app_nil_r.
  - destruct (selected images_only (obj :: all)) as [|obj' objects] eqn:Hsel;
      cbn [events].
    + rewrite <- !app_assoc, Hheader_calls, Hheader_shown, Hheader_more.
      rewrite list_calls_app, previewed_app, announced_more_app, Hp, Ha.
      rewrite Hsel_calls, Hsel_shown, Hsel_more. by rewrite app_nil_r.
    + set (shown := events (preview (obj' :: objects) (world listing))).
      assert (list_calls shown = []) as Hshown_calls.
      { apply prints_no_list_calls, preview_only. }
      destruct dry_run; cbn [events]; rewrite <- !app_assoc;
        rewrite Hheader_calls, Hheader_shown, Hheader_more;
        rewrite list_calls_app, previewed_app, announced_more_app, Hp, Ha;
        rewrite Hsel_calls, Hsel_shown, Hsel_more;
        rewrite list_calls_app, previewed_app, announced_more_app, Hshown_calls.
      * by rewrite !app_nil_r, Nat.add_0_r.
      * pose proof (confirm_and_delete_outside (obj' :: objects) (world listing))
          as Hrest.
        destruct (outside_preview_none _ Hrest) as [-> ->].
        rewrite confirm_and_delete_no_list_calls.
        by rewrite !app_nil_r, Nat.add_0_r.
  - rewrite Hheader_calls, Hheader_shown, Hheader_more. by rewrite Hp, Ha.
Qed.




End Predicts.

(** ** What the listing reports *)



Lemma found_counts_app t1 t2 :
  found_counts (t1 ++ t2) = found_counts t1 ++ found_counts t2.
Proof. unfold found_counts. by rewrite printed_app, omap_app. Qed.

Lemma totals_app t1 t2 : totals (t1 ++ t2) = totals t1 ++ totals t2.
Proof. unfold totals. by rewrite printed_app, omap_app. Qed.

Section Totals.
Context {W : Type} `{!S3Client W, !Console W}.
Variable self : R2BucketCleaner.

Lemma list_loop_found budget objects continuation_token (w : W) :
  let run := list_loop self budget objects continuation_token w in
  totals (events run) = []
  ∧ match result run with
    | Some (inr listed) =>
        length listed = length objects + sum_list (found_counts (events run))
    | _ => True
    end.
Proof.
  revert objects continuation_token w.
  induction budget as [|budget IH]; intros objects token w; [done|].
  cbn zeta. rewrite list_loop_step. cbn zeta.
  destruct (list_objects_v2 (list_params self token) w).1 as [e|response];
    [done|].
  set (found := match Contents response with
                | Some contents => [EvPrint (MsgFoundInBatch (length contents))]
                | None => []
                end).
  assert (totals found = []) as Htotals by (subst found; by case_match).
  assert (sum_list (found_counts found) = length (entries response)) as Hfound.
  { subst found. unfold entries. by destruct (Contents response). }
  destruct (is_truncated response); cbn [result events].
  - destruct (IH (objects ++ entries response) (NextContinuationToken response)
                 (list_objects_v2 (list_params self token) w).2) as [Ht Hlen].
    change (EvList ?p ?r :: ?t) with ([EvList p r] ++ t).
    rewrite !totals_app, !found_counts_app, Htotals, Ht. split; [done|].
    destruct (result _) as [[e|listed]|]; [done| |done].
    rewrite Hlen, length_app, !sum_list_with_app, Hfound.
    change (sum_list (found_counts [EvList _ _])) with 0. lia.
  - change (EvList ?p ?r :: ?t) with ([EvList p r] ++ t).
    rewrite !totals_app, !found_counts_app, Htotals. split; [done|].
    rewrite length_app, !sum_list_with_app, Hfound.
    change (sum_list (found_counts [EvList _ _])) with 0. lia.
Qed.

(** X17. What [list_all_objects] prints adds up.  When it returns a
    list, either its one total line gives the length of that list, and
    this is the sum of the numbers of its per-page lines; or a request
    raised, the list is empty, there is no total line and the last line
    is the error.  A listing cut short by the budget has no total
    line. *)
Theorem listing_total_adds_up budget (w : W) :
  let run := list_all_objects self budget w in
  let t := events run in
  match result run with
  | Some all_objects =>
      totals t = [length all_objects]
      ∧ length all_objects = sum_list (found_counts t)
      ∨ all_objects = [] ∧ totals t = []
        ∧ ∃ e, last (printed t) = Some (MsgErrorListing e)
  | None => totals t = []
  end.
Proof.
  cbn zeta. rewrite list_all_objects_run. cbn zeta. cbn [result events].
  destruct (list_loop_found budget [] None w) as [Htotals Hlen].
  cbn zeta in Htotals, Hlen.
  change (EvPrint ?m :: ?t) with ([EvPrint m] ++ t).
  rewrite !totals_app, !found_counts_app, Htotals.
  destruct (result (list_loop self budget [] None w)) as [[e|listed]|].
  - right. split; [done|]. split; [done|]. exists e.
    rewrite app_assoc, printed_app. apply last_snoc.
  - left. split; [done|]. rewrite !sum_list_with_app, Hlen.
    change (found_counts [EvPrint (MsgListing _)]) with (@nil nat).
    change (found_counts [EvPrint (MsgTotalFound _)]) with (@nil nat).
    cbn. lia.
  - done.
Qed.

End Totals.

(** ** The bucket of the requests *)

Section Bucket.
Context {W : Type} `{!S3Client W, !Console W}.

(** X18. Every listing request and every delete request of a run of
    [main] names the bucket of the configuration, the one that
    [__init__] stored in the cleaner. *)
Theorem main_touches_only_its_bucket config args budget (w : W) :
  let t := cleaning_events (main config args budget w) in
  Forall (λ call, Bucket call.1 = config_bucket_name config) (list_calls t)
  ∧ Forall (λ call, DelBucket call.1 = config_bucket_name config)
           (delete_calls t).
Proof.
  assert (∀ images_only dry_run,
            let t := events (clean_bucket (new_cleaner config) budget
                                          images_only dry_run w) in
            Forall (λ call, Bucket call.1 = config_bucket_name config)
                   (list_calls t)
            ∧ Forall (λ call, DelBucket call.1 = config_bucket_name config)
                     (delete_calls t)) as Hclean.
  { intros images_only dry_run. cbn zeta. split.
    - destruct (clean_bucket_previewed (new_cleaner config) budget images_only
                  dry_run w) as (-> & _).
      rewrite list_all_objects_calls.
      eapply Forall_impl; [apply list_loop_requests|]. by intros call [? _].
    - match goal with
      | |- Forall _ (delete_calls ?t) =>
          destruct (decide (delete_calls t = [])) as [->|Hcalls]; [done|]
      end.
      destruct (clean_bucket_deleting _ _ _ _ _ Hcalls)
        as (_ & shown & answer & w' & _ & _ & _ & _ & _ & ->).
      apply (Forall_fmap fst (λ q, DelBucket q = config_bucket_name config)).
      change (fst <$> ?l) with (map fst l). rewrite delete_phase_requests.
      apply List.Forall_map, Forall_forall. done. }
  cbn zeta. unfold main.
  destruct (has_placeholder config); [done|].
  destruct (args_dry_run args); [apply Hclean|].
  destruct (args_delete_all args); [apply Hclean|].
  destruct (args_delete_images args); [apply Hclean|done].
Qed.

End Bucket.

(** ** Sample runs of the further properties *)




Lemma main_dry_run_is_harmless_witness :
  delete_calls (cleaning_events (main sample_config (dry_run_mode true) 5
                                      mixed_world)) = []
  ∧ prompts (cleaning_events (main sample_config (dry_run_mode true) 5
                                   mixed_world)) = []
  ∧ sleeps (cleaning_events (main sample_config (dry_run_mode true) 5
                                  mixed_world)) = 0.
Proof.
  apply (main_dry_run_is_harmless sample_config (dry_run_mode true) 5
           mixed_world).
  reflexivity.
Defined.


(** [--delete-all --images-only] on the mixed sample list: the text
    file is deleted too. *)
Example delete_all_with_images_only :
  requested_keys (cleaning_events (main sample_config (delete_all_mode true) 5
                                        mixed_world))
  = ["a.TXT"; "b.JpG"; "c.png"].
Proof. vm_compute. reflexivity. Qed.

Lemma main_spares_other_files_witness :
  Forall (λ key, is_image_key key = true)
         (requested_keys (cleaning_events
                            (main sample_config delete_images_mode 5 mixed_world)))
  ∧ requested_keys (cleaning_events
                      (main sample_config delete_images_mode 5 mixed_world))
    `sublist_of` map Key (listed (cleaning_events
                                    (main sample_config delete_images_mode 5
                                          mixed_world))).
Proof.
  apply (main_spares_other_files sample_config delete_images_mode 5 mixed_world).
  reflexivity.
Defined.

Example delete_images_on_mixed :
  requested_keys (cleaning_events
                    (main sample_config delete_images_mode 5 mixed_world))
  = ["b.JpG"; "c.png"].
Proof. vm_compute. reflexivity. Qed.

Lemma deletes_only_after_confirmation_witness :
  ∃ before answer after,
    events confirmed_run = before ++ EvInput confirmation_prompt answer :: after
    ∧ Py.strip answer = "DELETE"
    ∧ Forall is_print_or_list before
    ∧ Forall is_deletion_event after.
Proof.
  apply (deletes_only_after_confirmation cleaner 5 false false
           (one_page ["DELETE"] [])).
  vm_compute. discriminate.
Defined.



Lemma budget_only_cuts_short_witness :
  events (clean_bucket cleaner 2 false true empty_token_world)
    `prefix_of` events (clean_bucket cleaner 4 false true empty_token_world)
  ∧ (is_Some (result (clean_bucket cleaner 2 false true empty_token_world)) →
     clean_bucket cleaner 4 false true empty_token_world
     = clean_bucket cleaner 2 false true empty_token_world).
Proof.
  apply (budget_only_cuts_short cleaner 2 4 false true empty_token_world). lia.
Defined.

Lemma endless_listing_never_returns_witness :
  result (clean_bucket cleaner 7 false false endless) = None
  ∧ length (list_calls (events (clean_bucket cleaner 7 false false endless))) = 7
  ∧ delete_calls (events (clean_bucket cleaner 7 false false endless)) = []
  ∧ prompts (events (clean_bucket cleaner 7 false false endless)) = [].
Proof.
  apply (endless_listing_never_returns cleaner 7 false false endless).
  intros params w. exists endless_page. split; reflexivity.
Defined.

(** The dry run over twelve objects shows ten of them and announces two
    more; the real run from the same world deletes the twelve. *)
Example dry_run_of_twelve :
  map (λ line, line.1.2)
      (previewed (events (clean_bucket cleaner 5 false true twelve_world)))
  = map sample_key (seq 0 10)
  ∧ announced_more (events (clean_bucket cleaner 5 false true twelve_world)) = 2
  ∧ requested_keys (events (clean_bucket cleaner 5 false false twelve_world))
    = map sample_key (seq 0 12).
Proof. vm_compute. repeat split; reflexivity. Qed.
